(** * aws-log-ingestion: the delivery pipeline of [src/function.py]

    A shallow embedding of the Lambda function that forwards CloudWatch
    Logs / S3 log entries to the ingest service: entry classification,
    envelope construction, size-bounded payload splitting and the
    retrying HTTP transport.

    Python values are modelled by the type [pyval] (what [json.loads]
    produces), exceptions by [exn], and the effects of the program
    (network calls, [time.sleep], [print], [os.getenv]) by a state and
    error monad over the record [World]. *)

From Stdlib Require Import ZArith List String Ascii Bool Lia.
From Stdlib Require Import Strings.Byte.
From Stdlib Require Import DecimalString.
Import ListNotations.

Local Open Scope string_scope.
Local Open Scope Z_scope.

(** ** Module-level constants *)

Inductive EntryType := VPC | LAMBDA | OTHER.

Definition INGEST_SERVICE_VERSION : string := "v1".
Definition US_INGEST_SERVICE_HOST : string := "https://cloud-collector.newrelic.com".
Definition EU_INGEST_SERVICE_HOST : string := "https://cloud-collector.eu.newrelic.com".

Definition INGEST_SERVICE_PATHS (t : EntryType) : string :=
  match t with
  | LAMBDA => "/aws/lambda"
  | VPC => "/aws/vpc"
  | OTHER => "/aws"
  end.

Definition MAX_RETRIES : Z := 3.
Definition INITIAL_BACKOFF : Z := 1.
Definition BACKOFF_MULTIPLIER : Z := 2.
Definition MAX_PAYLOAD_SIZE : Z := 1000 * 1024.

(** ** Python values and exceptions *)

(** The values [json.loads] can return.  A dict is an association list
    in insertion order; a float is kept as mantissa and binary
    exponent (the program never inspects numbers). *)
Inductive pyval :=
| PNone
| PBool (b : bool)
| PInt (n : Z)
| PFloat (m e : Z)
| PStr (s : string)
| PList (l : list pyval)
| PDict (kvs : list (string * pyval)).

Inductive exn :=
| HTTPError (code : Z) (msg : string)
| URLError (reason : string)
| MaxRetriesException
| BadRequestException (msg : string)
| ThrottlingException (msg : string)
| JSONDecodeError
| KeyError
| TypeError
| IndexError
| OtherError (what : string).

(** The exceptions of the BadRequest family. *)
Definition is_BadRequest (e : exn) : bool :=
  match e with BadRequestException _ => true | _ => false end.

(** Outcome of running a piece of the program: a value, a raised
    exception, or exhaustion of the recursion budget of the model. *)
Inductive res (A : Type) :=
| Return (a : A)
| Raise (e : exn)
| OutOfFuel.
Arguments Return {A} a.
Arguments Raise {A} e.
Arguments OutOfFuel {A}.

Definition rbind {A B} (r : res A) (k : A -> res B) : res B :=
  match r with
  | Return a => k a
  | Raise e => Raise e
  | OutOfFuel => OutOfFuel
  end.

(** *** Strings *)

(** The double quote character, and a quoted string. *)
Definition dq : string := String "034"%char EmptyString.
Definition quoted (s : string) : string := dq ++ s ++ dq.

(** [str.startswith]. *)
Definition startswith (s p : string) : bool := String.prefix p s.

(** The [in] operator on [str]: [contains sub s] is [sub in s]. *)
Fixpoint contains (sub s : string) : bool :=
  if String.prefix sub s then true
  else match s with
       | EmptyString => false
       | String _ s' => contains sub s'
       end.

(** A [str] is kept as the bytes of its UTF-8 form, so that [encode]
    and [decode] are the identity on the bytes; its characters are the
    code points: a byte and the bytes 10xxxxxx that continue it. *)
Definition is_continuation (c : ascii) : bool :=
  match c with Ascii _ _ _ _ _ _ b6 b7 => b7 && negb b6 end.

(** The functions below go through the bytes of a string; [inside]
    tells that the byte before belongs to a character, which a
    continuation byte then continues. *)

(** Number of characters. *)
Fixpoint len_chars (inside : bool) (s : string) : nat :=
  match s with
  | EmptyString => O
  | String c s' =>
      if inside && is_continuation c then len_chars true s'
      else S (len_chars true s')
  end.

(** The first [n] characters. *)
Fixpoint take_chars (n : nat) (inside : bool) (s : string) : string :=
  match s with
  | EmptyString => EmptyString
  | String c s' =>
      if inside && is_continuation c then String c (take_chars n true s')
      else match n with
           | O => EmptyString
           | S n' => String c (take_chars n' true s')
           end
  end.

(** What follows the first [n] characters. *)
Fixpoint skip_chars (n : nat) (inside : bool) (s : string) : string :=
  match s with
  | EmptyString => EmptyString
  | String c s' =>
      if inside && is_continuation c then skip_chars n true s'
      else match n with
           | O => s
           | S n' => skip_chars n' true s'
           end
  end.

(** [len(s)], [s[:n]] and [s[n:]]. *)
Definition str_len (s : string) : nat := len_chars false s.
Definition str_take (n : nat) (s : string) : string := take_chars n false s.
Definition str_skip (n : nat) (s : string) : string := skip_chars n false s.

(** [s[lo:hi]] for [0 <= lo], [0 <= hi] on a string, counted in
    characters. *)
Definition str_slice (s : string) (lo hi : nat) : string :=
  str_take (hi - lo) (str_skip lo s).

(** Decimal rendering of an integer, as [str.format] prints it. *)
Definition str_of_Z (z : Z) : string :=
  NilZero.string_of_int (Z.to_int z).

(** *** Dicts, subscripts, [len], slices, [in] *)

Fixpoint dict_get (kvs : list (string * pyval)) (k : string) : option pyval :=
  match kvs with
  | [] => None
  | (k', v) :: rest => if String.eqb k' k then Some v else dict_get rest k
  end.

(** [d[k] = v]: replaces the value of an existing key in place, or
    appends the new key. *)
Fixpoint dict_set (kvs : list (string * pyval)) (k : string) (v : pyval)
  : list (string * pyval) :=
  match kvs with
  | [] => [(k, v)]
  | (k', v') :: rest =>
      if String.eqb k' k then (k', v) :: rest else (k', v') :: dict_set rest k v
  end.

(** [obj[key]] with a string key. *)
Definition getitem_str (obj : pyval) (k : string) : res pyval :=
  match obj with
  | PDict kvs => match dict_get kvs k with
                 | Some v => Return v
                 | None => Raise KeyError
                 end
  | _ => Raise TypeError
  end.

(** [obj[key] = v] with a string key. *)
Definition setitem_str (obj : pyval) (k : string) (v : pyval) : res pyval :=
  match obj with
  | PDict kvs => Return (PDict (dict_set kvs k v))
  | _ => Raise TypeError
  end.

(** [obj[0]]. *)
Definition getitem_0 (obj : pyval) : res pyval :=
  match obj with
  | PList [] => Raise IndexError
  | PList (x :: _) => Return x
  | PStr EmptyString => Raise IndexError
  | PStr s => Return (PStr (str_take 1 s))
  | PDict _ => Raise KeyError
  | _ => Raise TypeError
  end.

(** [len(obj)]. *)
Definition py_len (obj : pyval) : res Z :=
  match obj with
  | PList l => Return (Z.of_nat (List.length l))
  | PStr s => Return (Z.of_nat (str_len s))
  | PDict kvs => Return (Z.of_nat (List.length kvs))
  | _ => Raise TypeError
  end.

(** [obj[lo:hi]] for [0 <= lo <= hi]. *)
Definition py_slice (obj : pyval) (lo hi : Z) : res pyval :=
  match obj with
  | PList l => Return (PList (firstn (Z.to_nat (hi - lo)) (skipn (Z.to_nat lo) l)))
  | PStr s => Return (PStr (str_slice s (Z.to_nat lo) (Z.to_nat hi)))
  | _ => Raise TypeError
  end.

Definition pyval_is_str (v : pyval) (s : string) : bool :=
  match v with PStr s' => String.eqb s' s | _ => false end.

(** [key in obj] with a string key. *)
Definition py_in (k : string) (obj : pyval) : res bool :=
  match obj with
  | PDict kvs => Return (match dict_get kvs k with Some _ => true | None => false end)
  | PList l => Return (existsb (fun v => pyval_is_str v k) l)
  | PStr s => Return (contains k s)
  | _ => Raise TypeError
  end.

(** ** Entry classification *)

Definition VPC_MARKER : string :=
  quoted "logGroup" ++ ":" ++ dq ++ "/aws/vpc/flow-logs" ++ dq.
Definition LAMBDA_MARKER : string :=
  quoted "logGroup" ++ ":" ++ dq ++ "/aws/lambda/".
Definition NR_MARKER : string :=
  ",\" ++ dq ++ "NR_LAMBDA_MONITORING\" ++ dq ++ ",".

Definition _get_entry_type (log_entry : string) : EntryType :=
  if contains VPC_MARKER log_entry then VPC
  else if contains LAMBDA_MARKER log_entry && contains NR_MARKER log_entry then LAMBDA
  else OTHER.

(** ** The world the program runs in *)

(** An outbound request: [request.Request(url, data)] and its headers
    in the order [add_header] was called. *)
Record Request := mkRequest {
  req_url : string;
  req_data : list byte;
  req_headers : list (string * string)
}.

Definition add_header (r : Request) (k v : string) : Request :=
  mkRequest (req_url r) (req_data r) (req_headers r ++ [(k, v)]).

Fixpoint header_get (hs : list (string * string)) (k : string) : option string :=
  match hs with
  | [] => None
  | (k', v) :: rest => if String.eqb k' k then Some v else header_get rest k
  end.

(** What opening one request does: [request.urlopen] returns a
    response (a 2xx status), raises [HTTPError] (any other status),
    raises [URLError] (the service is not reachable), or fails with an
    exception outside these two classes (a socket error while
    reading). *)
Inductive reply :=
| HttpOk (code : Z)
| HttpFail (code : Z) (msg : string)
| NetFail (reason : string)
| OtherFail (what : string).

Record Response := mkResponse { getcode : Z }.

(** What the program did to the outside, one entry for each call of
    [request.urlopen] and of [time.sleep], in the order of the calls. *)
Inductive event :=
| Called (req : Request)
| Slept (seconds : Z).

Record World := mkWorld {
  net : nat -> reply;                (* reply to the i-th call of urlopen *)
  environ : string -> option string; (* os.environ *)
  url_accepted : string -> bool;     (* request.Request takes the URL: no ValueError *)
  s3_objects : string -> string -> res (list byte); (* get_object(...)['Body'].read() *)
  sent : list Request;               (* requests passed to urlopen so far *)
  slept : list Z;                    (* arguments of time.sleep so far *)
  stdout : list string;              (* lines printed so far *)
  timeline : list event              (* the calls of urlopen and of sleep, in order *)
}.

(** State and error monad of the effectful functions. *)
Definition M (A : Type) : Type := World -> res A * World.

Definition ret {A} (a : A) : M A := fun w => (Return a, w).
Definition raise {A} (e : exn) : M A := fun w => (Raise e, w).
Definition out_of_fuel {A} : M A := fun w => (OutOfFuel, w).
Definition lift {A} (r : res A) : M A := fun w => (r, w).

Definition bind {A B} (m : M A) (k : A -> M B) : M B :=
  fun w =>
    match m w with
    | (Return a, w') => k a w'
    | (Raise e, w') => (Raise e, w')
    | (OutOfFuel, w') => (OutOfFuel, w')
    end.

(** [try: m / except ... as e: handler e / else: k r]. *)
Definition try_except_else {A B} (m : M A) (handler : exn -> M B) (k : A -> M B)
  : M B :=
  fun w =>
    match m w with
    | (Return a, w') => k a w'
    | (Raise e, w') => handler e w'
    | (OutOfFuel, w') => (OutOfFuel, w')
    end.

Declare Scope py_scope.
Delimit Scope py_scope with py.
Notation "x <- m ;; k" := (bind m (fun x => k))
  (at level 61, m at next level, right associativity) : py_scope.
Notation "m ;; k" := (bind m (fun _ => k))
  (at level 61, right associativity) : py_scope.
Local Open Scope py_scope.

Definition print (line : string) : M unit :=
  fun w => (Return tt,
            mkWorld (net w) (environ w) (url_accepted w) (s3_objects w)
                    (sent w) (slept w) (stdout w ++ [line]) (timeline w)).

Definition sleep (seconds : Z) : M unit :=
  fun w => (Return tt,
            mkWorld (net w) (environ w) (url_accepted w) (s3_objects w)
                    (sent w) (slept w ++ [seconds]) (stdout w)
                    (timeline w ++ [Slept seconds])).

(** [os.getenv(key, default)]. *)
Definition getenv (key default : string) : M string :=
  fun w => (Return (match environ w key with Some v => v | None => default end), w).

(** [request.Request(url, data)]: the constructor parses the URL and
    raises [ValueError] for one it cannot type, one without a scheme
    for instance. *)
Definition new_request (url : string) (data : list byte) : M Request :=
  fun w => if url_accepted w url
           then (Return (mkRequest url data []), w)
           else (Raise (OtherError "ValueError"), w).

Definition urlopen (req : Request) : M Response :=
  fun w =>
    let w' := mkWorld (net w) (environ w) (url_accepted w) (s3_objects w)
                      (sent w ++ [req]) (slept w) (stdout w)
                      (timeline w ++ [Called req]) in
    match net w (List.length (sent w)) with
    | HttpOk code => (Return (mkResponse code), w')
    | HttpFail code msg => (Raise (HTTPError code msg), w')
    | NetFail reason => (Raise (URLError reason), w')
    | OtherFail what => (Raise (OtherError what), w')
    end.

(** [str(e)] of an exception. *)
Definition str_exn (e : exn) : string :=
  match e with
  | HTTPError code msg => "HTTP Error " ++ str_of_Z code ++ ": " ++ msg
  | URLError reason => "<urlopen error " ++ reason ++ ">"
  | MaxRetriesException => EmptyString
  | BadRequestException msg => msg
  | ThrottlingException msg => msg
  | JSONDecodeError => "JSONDecodeError"
  | KeyError => "KeyError"
  | TypeError => "TypeError"
  | IndexError => "IndexError"
  | OtherError what => what
  end.

(** ** The retrying transport *)

Definition _format_error (e : exn) (text : string) : string :=
  str_exn e ++ ". " ++ text.

(** The [while retries < MAX_RETRIES] loop of [wrapper_func]; [fuel]
    bounds the number of iterations of the model. *)
Fixpoint wrapper_loop (func : M Response) (fuel : nat) (backoff retries : Z)
  : M Response :=
  if retries <? MAX_RETRIES then
    match fuel with
    | O => out_of_fuel
    | S fuel' =>
        backoff' <- (if 0 <? retries
                     then print ("Retrying in " ++ str_of_Z backoff ++ " seconds") ;;
                          sleep backoff ;;
                          ret (backoff * BACKOFF_MULTIPLIER)
                     else ret backoff) ;;
        let retries' := retries + 1 in
        try_except_else func
          (fun e =>
             match e with
             | HTTPError code _ =>
                 if code =? 400 then
                   raise (BadRequestException (_format_error e "Unexpected payload"))
                 else if code =? 403 then
                   raise (BadRequestException (_format_error e "Review your license key"))
                 else if code =? 404 then
                   raise (BadRequestException (_format_error e "Review the region endpoint"))
                 else if code =? 429 then
                   raise (ThrottlingException (_format_error e "Too many requests"))
                 else if (400 <=? code) && (code <? 500) then
                   raise (BadRequestException (str_exn e))
                 else wrapper_loop func fuel' backoff' retries'
             | URLError reason =>
                 print ("There was an error. Reason: " ++ reason) ;;
                 wrapper_loop func fuel' backoff' retries'
             | _ => raise e
             end)
          (fun response => ret response)
    end
  else raise MaxRetriesException.

Definition wrapper_func (func : M Response) : M Response :=
  wrapper_loop func (Z.to_nat MAX_RETRIES) INITIAL_BACKOFF 0.

(** The decorator. *)
Definition http_retryable (func : M Response) : M Response := wrapper_func func.

(** ** Sending a payload *)

Definition _get_license_key : string := "f7462ab48bc1fee992a5ab87c707a21b6b1ab893".

Definition _get_ingest_service_host : M string :=
  license <- getenv "LICENSE_KEY" EmptyString ;;
  let license_region := if startswith license "eu" then "EU" else "US" in
  env_ingest_region <- getenv "NR_REGION" license_region ;;
  if String.eqb env_ingest_region "US" then ret US_INGEST_SERVICE_HOST
  else if String.eqb env_ingest_region "EU" then ret EU_INGEST_SERVICE_HOST
  else ret env_ingest_region.

Definition _get_ingest_service_url (entity_type : EntryType) : M string :=
  let path := INGEST_SERVICE_PATHS entity_type in
  host <- _get_ingest_service_host ;;
  ret (host ++ path ++ "/" ++ INGEST_SERVICE_VERSION).

(** The undecorated [do_request] of [_send_payload]. *)
Definition do_request (entry_type : EntryType) (payload : list byte) : M Response :=
  url <- _get_ingest_service_url entry_type ;;
  req <- new_request url payload ;;
  let req := add_header req "X-License-Key" _get_license_key in
  let req := add_header req "Content-Encoding" "gzip" in
  urlopen req.

Definition _send_payload (entry_type : EntryType) (payload : list byte) : M unit :=
  try_except_else (http_retryable (do_request entry_type payload))
    (fun e =>
       match e with
       | MaxRetriesException =>
           print "Retry limit reached. Failed to send log entry." ;;
           raise e
       | BadRequestException _ => print (str_exn e)
       | _ => raise e
       end)
    (fun response =>
       print ("Log entry sent. Response code: " ++ str_of_Z (getcode response))).

(** *** Vocabulary for statements about the transport *)

(** A reply after which [wrapper_func] goes round the loop again: the
    service did not respond ([URLError]) or answered with an error
    status outside 400..499 (the 5xx family). *)
Definition retryable (r : reply) : bool :=
  match r with
  | NetFail _ => true
  | HttpFail code _ => negb ((400 <=? code) && (code <? 500))
  | _ => false
  end.

(** A 4xx status other than 429. *)
Definition fatal_code (code : Z) : bool :=
  (400 <=? code) && (code <? 500) && negb (code =? 429).

(** Reply to the [i]-th call of [urlopen] counted from world [w]. *)
Definition upcoming (w : World) (i : nat) : reply :=
  net w (List.length (sent w) + i)%nat.

(** Number of [urlopen] calls made between [w] and [w']. *)
Definition attempts (w w' : World) : Z :=
  Z.of_nat (List.length (sent w')) - Z.of_nat (List.length (sent w)).

(** The first [n] backoff durations: the one slept before attempt
    [i + 2] is [INITIAL_BACKOFF * BACKOFF_MULTIPLIER ^ i]. *)
Definition backoffs (n : nat) : list Z :=
  map (fun i => INITIAL_BACKOFF * BACKOFF_MULTIPLIER ^ Z.of_nat i) (seq 0 n).

(** The request [do_request] builds for the URL [url]. *)
Definition request_to (url : string) (payload : list byte) : Request :=
  mkRequest url payload
    [("X-License-Key", _get_license_key); ("Content-Encoding", "gzip")].

(** The requests and the sleeps of a sequence of events. *)
Fixpoint calls (evs : list event) : list Request :=
  match evs with
  | [] => []
  | Called req :: rest => req :: calls rest
  | Slept _ :: rest => calls rest
  end.

Fixpoint sleeps (evs : list event) : list Z :=
  match evs with
  | [] => []
  | Called _ :: rest => sleeps rest
  | Slept seconds :: rest => seconds :: sleeps rest
  end.

(** The events of [n] attempts with the request [req] when none is
    followed by anything but the next one: the first call, then each
    further call right after the sleep of its backoff.  For three
    attempts: call, sleep 1, call, sleep 2, call. *)
Definition attempt_steps (req : Request) (n : nat) : list event :=
  match n with
  | O => []
  | S m => Called req :: flat_map (fun d => [Slept d; Called req]) (backoffs m)
  end.

(** ** Library functions the program calls

    [json], [gzip], [base64] and the text codec are not part of the
    repository; the pipeline is parameterised over them.  A Python
    [str] is kept as the bytes of its UTF-8 form, so [str.encode()] is
    [list_byte_of_string]. *)
Class Codec := {
  json_dumps : pyval -> string;               (* json.dumps *)
  json_loads : string -> option pyval;        (* json.loads; None: JSONDecodeError *)
  gzip_compress : list byte -> list byte;     (* gzip.compress *)
  gzip_decompress : list byte -> res (list byte);  (* gzip.decompress *)
  b64decode : string -> res (list byte);      (* base64.b64decode *)
  utf8_decode : list byte -> res string;      (* bytes.decode('utf-8') *)
  py_repr : pyval -> string                   (* what print(obj) writes *)
}.

Definition encode (s : string) : list byte := list_byte_of_string s.

(** A dict has each key once; a float is in lowest terms. *)
Fixpoint nodup_keys (ks : list string) : bool :=
  match ks with
  | [] => true
  | k :: rest => negb (existsb (String.eqb k) rest) && nodup_keys rest
  end.

Fixpoint pyval_wf (v : pyval) : bool :=
  match v with
  | PFloat m e => Z.odd m || ((m =? 0) && (e =? 0))
  | PList l => forallb pyval_wf l
  | PDict kvs =>
      nodup_keys (map fst kvs) && forallb (fun kv => pyval_wf (snd kv)) kvs
  | _ => true
  end.

(** What the program relies on: decoding what was encoded gives the
    value back, and compression is lossless. *)
Class CodecLaws (C : Codec) : Prop := {
  loads_dumps : forall v, pyval_wf v = true -> json_loads (json_dumps v) = Some v;
  loads_wf : forall s v, json_loads s = Some v -> pyval_wf v = true;
  decompress_compress : forall b, gzip_decompress (gzip_compress b) = Return b
}.

(** ** Envelopes and the payload splitter *)

(** The [context] object Lambda passes to the handler. *)
Record LambdaContext := mkContext {
  function_name : string;
  invoked_function_arn : string;
  log_group_name : string;
  log_stream_name : string
}.

(** The dict [{'context': ..., 'entry': ...}]. *)
Record Data := mkData {
  context : pyval;
  entry : string
}.

Definition pyval_of_data (data : Data) : pyval :=
  PDict [("context", context data); ("entry", PStr (entry data))].

Notation "x <-- r ; k" := (rbind r (fun x => k))
  (at level 61, r at next level, right associativity) : py_scope.

Section Splitter.
Context {codec : Codec}.

(** [gzip.compress(json.dumps(data).encode())]. *)
Definition wire (data : Data) : list byte :=
  gzip_compress (encode (json_dumps (pyval_of_data data))).

(** [_reconstruct_data] assigns into the [entry] dict it is given;
    the dict is threaded through as state, so the second call in
    [_split] sees what the first one left. *)
Definition _reconstruct_data (context : pyval) (logEvents : pyval) (entry : pyval)
  : res (Data * pyval) :=
  entry' <-- setitem_str entry "logEvents" logEvents ;
  Return (mkData context (json_dumps entry'), entry').

Definition _split (data : Data) : res (Data * Data) :=
  let context := context data in
  entry <-- match json_loads (entry data) with
            | Some v => Return v
            | None => Raise JSONDecodeError
            end ;
  logEvents <-- getitem_str entry "logEvents" ;
  n <-- py_len logEvents ;
  let half := n / 2 in
  left <-- py_slice logEvents 0 half ;
  r1 <-- _reconstruct_data context left entry ;
  right <-- py_slice logEvents half n ;
  r2 <-- _reconstruct_data context right (snd r1) ;
  Return (fst r1, fst r2).

(** [fuel] bounds the depth of the recursion. *)
Fixpoint _generate_payloads (fuel : nat) (data : Data) : res (list (list byte)) :=
  let payload := gzip_compress (encode (json_dumps (pyval_of_data data))) in
  if Z.of_nat (List.length payload) <? MAX_PAYLOAD_SIZE then Return [payload]
  else
    match fuel with
    | O => OutOfFuel
    | S fuel' =>
        split_data <-- _split data ;
        first <-- _generate_payloads fuel' (fst split_data) ;
        second <-- _generate_payloads fuel' (snd split_data) ;
        Return (first ++ second)%list
    end.

(** ** The dispatcher *)

Fixpoint for_each {A} (items : list A) (body : A -> M unit) : M unit :=
  match items with
  | [] => ret tt
  | x :: rest => body x ;; for_each rest body
  end.

Definition _send_log_entry (fuel : nat) (log_entry : string) (ctx : LambdaContext)
  : M unit :=
  let data := mkData
                (PDict [("function_name", PStr (function_name ctx));
                        ("invoked_function_arn", PStr (invoked_function_arn ctx));
                        ("log_group_name", PStr (log_group_name ctx));
                        ("log_stream_name", PStr (log_stream_name ctx))])
                log_entry in
  let entry_type := _get_entry_type log_entry in
  payloads <- lift (_generate_payloads fuel data) ;;
  for_each payloads (fun payload => _send_payload entry_type payload).

(** ** The handler *)

Definition _get_log_type (event : pyval) : res string :=
  has_awslogs <-- py_in "awslogs" event ;
  if has_awslogs then Return "cw_logs"
  else
    has_records <-- py_in "Records" event ;
    if negb has_records then Return "unknown"
    else
      records <-- getitem_str event "Records" ;
      record <-- getitem_0 records ;
      has_s3 <-- py_in "s3" record ;
      if negb has_s3 then Return "unknown"
      else
        records <-- getitem_str event "Records" ;
        record <-- getitem_0 records ;
        event_name <-- getitem_str record "eventName" ;
        created <-- py_in "ObjectCreated" event_name ;
        if created then Return "s3" else Return "unknown".

(** [key.split('.')[-1]]. *)
Fixpoint last_dot_component (s acc : string) : string :=
  match s with
  | EmptyString => acc
  | String c s' =>
      if Ascii.eqb c "."%char then last_dot_component s' EmptyString
      else last_dot_component s' (acc ++ String c EmptyString)
  end.

(** [StringIO(data)] is given a [bytes] object, which raises
    [TypeError]. *)
Definition _get_s3_data (bucket key : pyval) : M (list byte) :=
  match bucket, key with
  | PStr b, PStr k =>
      data <- (fun w => (s3_objects w b k, w)) ;;
      if String.eqb (last_dot_component k EmptyString) "gz" then raise TypeError
      else ret data
  | _, _ => raise (OtherError "ParamValidationError")
  end.

(** [bytes.splitlines()]; [cur] is the line read so far, reversed. *)
Fixpoint splitlines (data cur : list byte) : list (list byte) :=
  match data with
  | [] => match cur with [] => [] | _ => [rev cur] end
  | x0d :: rest =>
      rev cur :: match rest with
                 | x0a :: rest' => splitlines rest' []
                 | _ => splitlines rest []
                 end
  | x0a :: rest => rev cur :: splitlines rest []
  | b :: rest => splitlines rest (b :: cur)
  end.

Definition lambda_handler (fuel : nat) (event : pyval) (ctx : LambdaContext)
  : M unit :=
  log_type <- lift (_get_log_type event) ;;
  if String.eqb log_type "cw_logs" then
    awslogs <- lift (getitem_str event "awslogs") ;;
    data <- lift (getitem_str awslogs "data") ;;
    event_data <- lift (match data with
                        | PStr s => b64decode s
                        | _ => Raise TypeError
                        end) ;;
    raw <- lift (gzip_decompress event_data) ;;
    log_entry <- lift (utf8_decode raw) ;;
    _send_log_entry fuel log_entry ctx
  else if String.eqb log_type "s3" then
    records <- lift (getitem_str event "Records") ;;
    record <- lift (getitem_0 records) ;;
    s3 <- lift (getitem_str record "s3") ;;
    bucket_obj <- lift (getitem_str s3 "bucket") ;;
    bucket <- lift (getitem_str bucket_obj "name") ;;
    records <- lift (getitem_str event "Records") ;;
    record <- lift (getitem_0 records) ;;
    s3 <- lift (getitem_str record "s3") ;;
    object <- lift (getitem_str s3 "object") ;;
    key <- lift (getitem_str object "key") ;;
    data <- _get_s3_data bucket key ;;
    (* each log_line is a bytes object: _send_log_entry builds its
       dict and then _get_entry_type applies [str in bytes], which
       raises TypeError *)
    for_each (splitlines data []) (fun log_line => raise TypeError)
  else
    print "Not supported" ;;
    print (py_repr event).
End Splitter.

(** ** A small instance of the library interface

    Used to run the model on concrete inputs.  Values are written in a
    prefix code (a tag character, then the parts, lists and dicts
    closed by a bracket); compression, base64 and the text codec are
    the identity. *)
Module RefCodec.

Fixpoint enc_pos (p : positive) (rest : string) : string :=
  match p with
  | xI p' => String "1" (enc_pos p' rest)
  | xO p' => String "0" (enc_pos p' rest)
  | xH => String "." rest
  end.

Definition enc_Z (z : Z) (rest : string) : string :=
  match z with
  | Z0 => String "z" rest
  | Zpos p => String "+" (enc_pos p rest)
  | Zneg p => String "-" (enc_pos p rest)
  end.

Fixpoint enc_str (s : string) (rest : string) : string :=
  match s with
  | EmptyString => String "." rest
  | String c s' => String "c" (String c (enc_str s' rest))
  end.

Fixpoint enc (v : pyval) (rest : string) : string :=
  match v with
  | PNone => String "n" rest
  | PBool true => String "t" rest
  | PBool false => String "f" rest
  | PInt n => String "i" (enc_Z n rest)
  | PFloat m e => String "d" (enc_Z m (enc_Z e rest))
  | PStr s => String "s" (enc_str s rest)
  | PList l =>
      String "["
        ((fix items (l : list pyval) : string :=
            match l with
            | [] => String "]" rest
            | x :: l' => String "," (enc x (items l'))
            end) l)
  | PDict kvs =>
      String "{"
        ((fix items (kvs : list (string * pyval)) : string :=
            match kvs with
            | [] => String "}" rest
            | kv :: kvs' => String "," (enc_str (fst kv) (enc (snd kv) (items kvs')))
            end) kvs)
  end.

Fixpoint dec_pos (s : string) : option (positive * string) :=
  match s with
  | String "1" r => match dec_pos r with
                    | Some (p, r') => Some (xI p, r')
                    | None => None
                    end
  | String "0" r => match dec_pos r with
                    | Some (p, r') => Some (xO p, r')
                    | None => None
                    end
  | String "." r => Some (xH, r)
  | _ => None
  end.

Definition dec_Z (s : string) : option (Z * string) :=
  match s with
  | String "z" r => Some (Z0, r)
  | String "+" r => match dec_pos r with
                    | Some (p, r') => Some (Zpos p, r')
                    | None => None
                    end
  | String "-" r => match dec_pos r with
                    | Some (p, r') => Some (Zneg p, r')
                    | None => None
                    end
  | _ => None
  end.

Fixpoint dec_str (s : string) : option (string * string) :=
  match s with
  | String "." r => Some (EmptyString, r)
  | String "c" (String c r) =>
      match dec_str r with
      | Some (t, r') => Some (String c t, r')
      | None => None
      end
  | _ => None
  end.

Fixpoint dec (fuel : nat) (s : string) : option (pyval * string) :=
  match fuel with
  | O => None
  | S fuel' =>
      match s with
      | String "n" r => Some (PNone, r)
      | String "t" r => Some (PBool true, r)
      | String "f" r => Some (PBool false, r)
      | String "i" r => match dec_Z r with
                        | Some (n, r') => Some (PInt n, r')
                        | None => None
                        end
      | String "d" r => match dec_Z r with
                        | Some (m, r') =>
                            match dec_Z r' with
                            | Some (e, r'') => Some (PFloat m e, r'')
                            | None => None
                            end
                        | None => None
                        end
      | String "s" r => match dec_str r with
                        | Some (t, r') => Some (PStr t, r')
                        | None => None
                        end
      | String "[" r => match dec_list fuel' r with
                        | Some (l, r') => Some (PList l, r')
                        | None => None
                        end
      | String "{" r => match dec_dict fuel' r with
                        | Some (kvs, r') => Some (PDict kvs, r')
                        | None => None
                        end
      | _ => None
      end
  end
with dec_list (fuel : nat) (s : string) : option (list pyval * string) :=
  match fuel with
  | O => None
  | S fuel' =>
      match s with
      | String "]" r => Some ([], r)
      | String "," r =>
          match dec fuel' r with
          | Some (x, r') =>
              match dec_list fuel' r' with
              | Some (l, r'') => Some (x :: l, r'')
              | None => None
              end
          | None => None
          end
      | _ => None
      end
  end
with dec_dict (fuel : nat) (s : string) : option (list (string * pyval) * string) :=
  match fuel with
  | O => None
  | S fuel' =>
      match s with
      | String "}" r => Some ([], r)
      | String "," r =>
          match dec_str r with
          | Some (k, r') =>
              match dec fuel' r' with
              | Some (v, r'') =>
                  match dec_dict fuel' r'' with
                  | Some (kvs, r''') => Some ((k, v) :: kvs, r''')
                  | None => None
                  end
              | None => None
              end
          | None => None
          end
      | _ => None
      end
  end.

(** The items of a list and of a dict, as [enc] writes them. *)
Definition enc_list (l : list pyval) (rest : string) : string :=
  (fix items (l : list pyval) : string :=
     match l with
     | [] => String "]" rest
     | x :: l' => String "," (enc x (items l'))
     end) l.

Definition enc_dict (kvs : list (string * pyval)) (rest : string) : string :=
  (fix items (kvs : list (string * pyval)) : string :=
     match kvs with
     | [] => String "}" rest
     | kv :: kvs' => String "," (enc_str (fst kv) (enc (snd kv) (items kvs')))
     end) kvs.

(** Fuel that decoding needs. *)
Fixpoint need (v : pyval) : nat :=
  match v with
  | PList l => S (S (list_sum (map (fun x => S (need x)) l)))
  | PDict kvs => S (S (list_sum (map (fun kv => S (need (snd kv))) kvs)))
  | _ => 1
  end.

Definition need_list (l : list pyval) : nat :=
  S (list_sum (map (fun x => S (need x)) l)).

Definition need_dict (kvs : list (string * pyval)) : nat :=
  S (list_sum (map (fun kv => S (need (snd kv))) kvs)).

Definition dumps (v : pyval) : string := enc v EmptyString.

Definition loads (s : string) : option pyval :=
  match dec (S (String.length s)) s with
  | Some (v, EmptyString) => if pyval_wf v then Some v else None
  | _ => None
  end.

Definition codec : Codec := {|
  json_dumps := dumps;
  json_loads := loads;
  gzip_compress := fun b => b;
  gzip_decompress := fun b => Return b;
  b64decode := fun s => Return (list_byte_of_string s);
  utf8_decode := fun b => Return (string_of_list_byte b);
  py_repr := dumps
|}.

End RefCodec.

(** ** Vocabulary of the statements *)

(** [sub] occurs in [s]. *)
Definition occurs (sub s : string) : Prop :=
  exists pre post, s = pre ++ sub ++ post.

(** [w'] is [w] after the events [evs]. *)
Definition advances (w w' : World) (evs : list event) : Prop :=
  net w' = net w /\ environ w' = environ w /\ url_accepted w' = url_accepted w /\
  s3_objects w' = s3_objects w /\
  timeline w' = (timeline w ++ evs)%list /\
  sent w' = (sent w ++ calls evs)%list /\
  slept w' = (slept w ++ sleeps evs)%list.

(** The backoff held by the loop after [j] failed attempts. *)
Definition backoff_at (j : nat) : Z :=
  INITIAL_BACKOFF * BACKOFF_MULTIPLIER ^ Z.of_nat (j - 1).

(** The dict [_send_log_entry] builds. *)
Definition envelope (log_entry : string) (ctx : LambdaContext) : Data :=
  mkData
    (PDict [("function_name", PStr (function_name ctx));
            ("invoked_function_arn", PStr (invoked_function_arn ctx));
            ("log_group_name", PStr (log_group_name ctx));
            ("log_stream_name", PStr (log_stream_name ctx))])
    log_entry.

(** [len(payload) < MAX_PAYLOAD_SIZE] for the payload of [data]. *)
Definition fits {codec : Codec} (data : Data) : bool :=
  Z.of_nat (List.length (wire data)) <? MAX_PAYLOAD_SIZE.

(** The envelope [_reconstruct_data] returns for the events [seg],
    when the parsed entry is the dict [kvs]. *)
Definition sub_envelope {codec : Codec} (ctx : pyval) (kvs : list (string * pyval))
    (seg : list pyval) : Data :=
  mkData ctx (json_dumps (PDict (dict_set kvs "logEvents" (PList seg)))).

(** The [logEvents] list a payload carries: decompress, decode, parse
    the envelope, parse its entry. *)
Definition carried {codec : Codec} (payload : list byte) : option (list pyval) :=
  match gzip_decompress payload with
  | Return raw =>
      match json_loads (string_of_list_byte raw) with
      | Some (PDict top) =>
          match dict_get top "entry" with
          | Some (PStr text) =>
              match json_loads text with
              | Some (PDict kvs) =>
                  match dict_get kvs "logEvents" with
                  | Some (PList evs) => Some evs
                  | _ => None
                  end
              | _ => None
              end
          | _ => None
          end
      | _ => None
      end
  | _ => None
  end.

(** The events of a sequence of payloads, in output order. *)
Fixpoint carried_events {codec : Codec} (payloads : list (list byte))
  : option (list pyval) :=
  match payloads with
  | [] => Some []
  | p :: rest =>
      match carried p, carried_events rest with
      | Some evs, Some more => Some (evs ++ more)%list
      | _, _ => None
      end
  end.

(** The half of [len(logEvents)]. *)
Definition half_of (evs : list pyval) : nat := (List.length evs / 2)%nat.

(** The exception [_split] raises when the entry is not JSON, not a
    dict, has no logEvents, or has a logEvents that can be neither
    measured nor sliced. *)
Definition split_error {codec : Codec} (text : string) : option exn :=
  match json_loads text with
  | None => Some JSONDecodeError
  | Some (PDict kvs) =>
      match dict_get kvs "logEvents" with
      | None => Some KeyError
      | Some (PList _) | Some (PStr _) => None
      | Some _ => Some TypeError
      end
  | Some _ => Some TypeError
  end.

(** ** Concrete inputs *)
Module Examples.

#[local] Existing Instance RefCodec.codec.

(** [n] copies of a character. *)
Fixpoint copies (n : nat) (c : ascii) : string :=
  match n with
  | O => EmptyString
  | S n' => String c (copies n' c)
  end.

Definition ctx0 : LambdaContext :=
  mkContext "ingest" "arn:aws:lambda:us-east-1:123456789012:function:ingest"
            "/aws/lambda/ingest" "2026/01/01/[$LATEST]0123".

(** The URLs [request.Request] takes: those that begin with a scheme,
    one or more characters other than '/' and ':' followed by ':'. *)
Fixpoint scheme_ends (s : string) (seen : bool) : bool :=
  match s with
  | EmptyString => false
  | String c s' =>
      if Ascii.eqb c ":" then seen
      else if Ascii.eqb c "/" then false
      else scheme_ends s' true
  end.

Definition has_scheme (url : string) : bool := scheme_ends url false.

(** A world where nothing happened yet. *)
Definition world (replies : nat -> reply) (env : string -> option string) : World :=
  mkWorld replies env has_scheme (fun _ _ => Raise (OtherError "NoSuchKey")) [] [] [] [].

Definition no_env : string -> option string := fun _ => None.

Definition eu_license : string := "eu01xx0123456789abcdef0123456789abcdefNRAL".

Definition eu_env : string -> option string :=
  fun k => if String.eqb k "LICENSE_KEY" then Some eu_license else None.

Definition always_200 : nat -> reply := fun _ => HttpOk 200.
Definition always_503 : nat -> reply := fun _ => HttpFail 503 "Service Unavailable".
Definition timeout_twice_then_200 : nat -> reply :=
  fun i => if (i <? 2)%nat then NetFail "timed out" else HttpOk 200.
Definition forbidden_then_200 : nat -> reply :=
  fun i => match i with O => HttpFail 403 "Forbidden" | _ => HttpOk 200 end.
Definition throttled_then_200 : nat -> reply :=
  fun i => match i with O => HttpFail 429 "Too Many Requests" | _ => HttpOk 200 end.

(** A small CloudWatch Logs entry. *)
Definition small_event : pyval :=
  PDict [("id", PStr "1"); ("timestamp", PInt 1700000000000); ("message", PStr "hello")].
Definition small_kvs : list (string * pyval) :=
  [("logGroup", PStr "/aws/lambda/f"); ("logEvents", PList [small_event])].
Definition small_entry : string := RefCodec.dumps (PDict small_kvs).

(** Two events of 150000 characters: together over the limit, each
    one alone below it. *)
Definition event_a : pyval := PStr (copies (Z.to_nat 150000) "a").
Definition event_b : pyval := PStr (copies (Z.to_nat 150000) "b").
Definition two_kvs : list (string * pyval) :=
  [("logGroup", PStr "/aws/lambda/f"); ("logEvents", PList [event_a; event_b])].
Definition two_entry : string := RefCodec.dumps (PDict two_kvs).

(** One event of 300000 characters: over the limit on its own. *)
Definition event_big : pyval := PStr (copies (Z.to_nat 300000) "a").
Definition big_kvs : list (string * pyval) :=
  [("logGroup", PStr "/aws/lambda/f"); ("logEvents", PList [event_big])].
Definition big_entry : string := RefCodec.dumps (PDict big_kvs).

(** The 64 characters of the URL-safe base64 alphabet. *)
Definition alphabet : string :=
  "ABCDEFGHIJKLMNOPQRSTUVWXYZabcdefghijklmnopqrstuvwxyz0123456789-_".

Definition alphabet_char (i : Z) : ascii :=
  match String.get (Z.to_nat i) alphabet with
  | Some c => c
  | None => "A"%char
  end.

(** [n] characters of the alphabet, drawn by the linear congruential
    generator x -> (1103515245 x + 12345) mod 2^31, bits 24 to 29 of
    each state. *)
Fixpoint noise (n : nat) (seed : Z) : string :=
  match n with
  | O => EmptyString
  | S n' =>
      let seed' := Z.land (seed * 1103515245 + 12345) 2147483647 in
      String (alphabet_char (Z.land (Z.shiftr seed' 24) 63)) (noise n' seed')
  end.

(** 1500001 characters that are not JSON (the text begins with x) and
    that compression does not bring below the limit: at 6 bits for
    each of the 64 equally likely characters they take 1125000 bytes,
    and [gzip.compress] turns the envelope of this entry into 1136456
    bytes. *)
Definition noise_entry : string := String "x" (noise (Z.to_nat 1500000) 2026).

End Examples.

(** ** Vocabulary of further properties *)

(** The ways [wrapper_func] can end. *)
Definition transport_outcome (r : res Response) : bool :=
  match r with
  | Return _ => true
  | Raise (BadRequestException _) => true
  | Raise (ThrottlingException _) => true
  | Raise MaxRetriesException => true
  | Raise (OtherError _) => true
  | _ => false
  end.

(** The world after one call of [urlopen] with [req]. *)
Definition after_call (w : World) (req : Request) : World :=
  mkWorld (net w) (environ w) (url_accepted w) (s3_objects w)
          (sent w ++ [req]) (slept w) (stdout w) (timeline w ++ [Called req]).

(** The line [_send_payload] prints after a delivery. *)
Definition sent_line (code : Z) : string :=
  "Log entry sent. Response code: " ++ str_of_Z code.

(** More concrete inputs. *)
Module MoreExamples.

Definition reset_then_200 : nat -> reply :=
  fun i => match i with O => OtherFail "ConnectionResetError" | _ => HttpOk 200 end.

(** An entry whose logEvents is a string, of six characters in nine
    bytes: a, n with tilde (195 177), b, the euro sign (226 130 172),
    c, d. *)
Definition n_tilde : string := String "195" (String "177" EmptyString).
Definition euro_sign : string := String "226" (String "130" (String "172" EmptyString)).
Definition text_events : string := "a" ++ n_tilde ++ "b" ++ euro_sign ++ "cd".
Definition text_kvs : list (string * pyval) :=
  [("logGroup", PStr "/aws/lambda/f"); ("logEvents", PStr text_events)].
Definition text_entry : string := RefCodec.dumps (PDict text_kvs).

(** Trigger events. *)
Definition s3_put_record : list (string * pyval) :=
  [("eventName", PStr "ObjectCreated:Put");
   ("s3", PDict [("bucket", PDict [("name", PStr "logs")]);
                 ("object", PDict [("key", PStr "2026/app.log.gz")])])].
Definition s3_put_event : list (string * pyval) :=
  [("Records", PList [PDict s3_put_record])].
Definition cw_event : list (string * pyval) :=
  [("awslogs", PDict [("data", PStr Examples.small_entry)])].
Definition cw_event_without_data : list (string * pyval) :=
  [("awslogs", PDict [])].

End MoreExamples.

(** Induction on Python values, through lists and dicts. *)
Section PyvalInduction.
Variable P : pyval -> Prop.
Hypothesis HNone : P PNone.
Hypothesis HBool : forall b, P (PBool b).
Hypothesis HInt : forall n, P (PInt n).
Hypothesis HFloat : forall m e, P (PFloat m e).
Hypothesis HStr : forall s, P (PStr s).
Hypothesis HList : forall l, Forall P l -> P (PList l).
Hypothesis HDict : forall kvs, Forall (fun kv => P (snd kv)) kvs -> P (PDict kvs).

Fixpoint pyval_induction (v : pyval) : P v :=
  match v with
  | PNone => HNone
  | PBool b => HBool b
  | PInt n => HInt n
  | PFloat m e => HFloat m e
  | PStr s => HStr s
  | PList l =>
      HList l ((fix all (l : list pyval) : Forall P l :=
                  match l with
                  | [] => Forall_nil _
                  | x :: l' => Forall_cons x (pyval_induction x) (all l')
                  end) l)
  | PDict kvs =>
      HDict kvs ((fix all (kvs : list (string * pyval))
                    : Forall (fun kv => P (snd kv)) kvs :=
                    match kvs with
                    | [] => Forall_nil _
                    | kv :: kvs' => Forall_cons kv (pyval_induction (snd kv)) (all kvs')
                    end) kvs)
  end.
End PyvalInduction.

(** * Properties *)

(** ** Entry classification *)

Lemma prefix_spec (p s : string) :
  String.prefix p s = true <-> exists post, s = p ++ post.
Proof.
  revert s. induction p as [|c p IH]; intros s; simpl.
  - destruct s; split; eauto.
  - destruct s as [|c' s].
    + split; [discriminate | intros [post H]; discriminate].
    + simpl. destruct (Ascii.ascii_dec c c') as [->|Hne].
      * rewrite IH. split; intros [post H]; exists post.
        -- now rewrite H.
        -- now injection H.
      * split; [discriminate | intros [post H]; injection H; congruence].
Qed.

Lemma contains_spec (sub s : string) :
  contains sub s = true <-> occurs sub s.
Proof.
  induction s as [|c s IH]; cbn [contains].
  - destruct (String.prefix sub EmptyString) eqn:Hp.
    + split; [intros _ | reflexivity].
      apply prefix_spec in Hp as [post Hp]. now exists EmptyString, post.
    + split; [discriminate|]. intros [pre [post H]].
      destruct pre; [|discriminate]. simpl in H.
      assert (String.prefix sub EmptyString = true) by (apply prefix_spec; eauto).
      congruence.
  - destruct (String.prefix sub (String c s)) eqn:Hp.
    + split; [intros _ | reflexivity].
      apply prefix_spec in Hp as [post Hp]. now exists EmptyString, post.
    + rewrite IH. split.
      * intros [pre [post H]]. exists (String c pre), post. simpl. now rewrite H.
      * intros [pre [post H]]. destruct pre as [|c' pre].
        -- simpl in H.
           assert (String.prefix sub (String c s) = true) by (apply prefix_spec; eauto).
           congruence.
        -- simpl in H. injection H as _ H. now exists pre, post.
Qed.

Lemma contains_false (sub s : string) :
  contains sub s = false <-> ~ occurs sub s.
Proof.
  rewrite <- contains_spec. destruct (contains sub s); split; congruence.
Qed.

(** C7. [_get_entry_type] is a total function on strings: it is VPC
    exactly when the entry contains the flow-logs marker, LAMBDA
    exactly when it does not but contains both the lambda log group
    marker and the NR_LAMBDA_MONITORING marker, and OTHER exactly in
    the remaining case. *)
Theorem get_entry_type_classifies (log_entry : string) :
  (_get_entry_type log_entry = VPC <-> occurs VPC_MARKER log_entry) /\
  (_get_entry_type log_entry = LAMBDA <->
     ~ occurs VPC_MARKER log_entry /\
     occurs LAMBDA_MARKER log_entry /\ occurs NR_MARKER log_entry) /\
  (_get_entry_type log_entry = OTHER <->
     ~ occurs VPC_MARKER log_entry /\
     ~ (occurs LAMBDA_MARKER log_entry /\ occurs NR_MARKER log_entry)).
Proof.
  unfold _get_entry_type.
  rewrite <- !contains_false, <- !contains_spec.
  destruct (contains VPC_MARKER log_entry),
           (contains LAMBDA_MARKER log_entry),
           (contains NR_MARKER log_entry); simpl;
    repeat split; try congruence; try tauto; intuition congruence.
Qed.

Example get_entry_type_vpc :
  _get_entry_type ("{" ++ quoted "logGroup" ++ ":" ++ quoted "/aws/vpc/flow-logs" ++ "}")
  = VPC.
Proof. reflexivity. Qed.

Example get_entry_type_lambda_without_marker :
  _get_entry_type ("{" ++ quoted "logGroup" ++ ":" ++ quoted "/aws/lambda/f" ++ "}")
  = OTHER.
Proof. reflexivity. Qed.

(** ** The retrying transport *)

Lemma calls_app e1 e2 : calls (e1 ++ e2) = (calls e1 ++ calls e2)%list.
Proof. induction e1 as [|[req|d] e1 IH]; simpl; congruence. Qed.

Lemma sleeps_app e1 e2 : sleeps (e1 ++ e2) = (sleeps e1 ++ sleeps e2)%list.
Proof. induction e1 as [|[req|d] e1 IH]; simpl; congruence. Qed.

Lemma advances_refl w : advances w w [].
Proof. unfold advances. simpl. rewrite !app_nil_r. tauto. Qed.

Lemma advances_trans w1 w2 w3 e1 e2 :
  advances w1 w2 e1 -> advances w2 w3 e2 -> advances w1 w3 (e1 ++ e2).
Proof.
  unfold advances. intros (N1&E1&A1&O1&T1&S1&L1) (N2&E2&A2&O2&T2&S2&L2).
  rewrite calls_app, sleeps_app, !app_assoc, <- T1, <- S1, <- L1.
  repeat split; congruence.
Qed.

Lemma upcoming_advances w w' evs i :
  advances w w' evs -> upcoming w' i = upcoming w (List.length (calls evs) + i).
Proof.
  unfold advances, upcoming. intros (Hn&_&_&_&_&Hs&_).
  rewrite Hn, Hs, length_app. f_equal. lia.
Qed.

Lemma attempts_advances w w' evs :
  advances w w' evs -> attempts w w' = Z.of_nat (List.length (calls evs)).
Proof.
  unfold advances, attempts. intros (_&_&_&_&_&->&_). rewrite length_app. lia.
Qed.

Lemma slept_advances w w' evs :
  advances w w' evs -> slept w' = (slept w ++ sleeps evs)%list.
Proof. unfold advances. tauto. Qed.

Lemma timeline_advances w w' evs :
  advances w w' evs -> timeline w' = (timeline w ++ evs)%list.
Proof. unfold advances. tauto. Qed.

Lemma sent_advances w w' evs :
  advances w w' evs -> sent w' = (sent w ++ calls evs)%list.
Proof. unfold advances. tauto. Qed.

Lemma backoffs_S n :
  backoffs (S n) = (backoffs n ++ [INITIAL_BACKOFF * BACKOFF_MULTIPLIER ^ Z.of_nat n])%list.
Proof. unfold backoffs. rewrite seq_S, map_app. reflexivity. Qed.

Lemma backoff_at_step j :
  (if 0 <? Z.of_nat j then backoff_at j * BACKOFF_MULTIPLIER else backoff_at j)
  = backoff_at (S j).
Proof.
  destruct j as [|j]; [reflexivity|].
  replace (0 <? Z.of_nat (S j)) with true by (symmetry; apply Z.ltb_lt; lia).
  unfold backoff_at. replace (S j - 1)%nat with j by lia.
  replace (S (S j) - 1)%nat with (S j) by lia.
  rewrite Nat2Z.inj_succ, Z.pow_succ_r by lia. unfold BACKOFF_MULTIPLIER. ring.
Qed.

(** One more attempt: the sleep of the backoff unless it is the first,
    then the call. *)
Lemma attempt_steps_S req j :
  (attempt_steps req j
   ++ (if 0 <? Z.of_nat j then [Slept (backoff_at j)] else []) ++ [Called req])%list
  = attempt_steps req (S j).
Proof.
  destruct j as [|j]; [reflexivity|].
  replace (0 <? Z.of_nat (S j)) with true by (symmetry; apply Z.ltb_lt; lia).
  unfold backoff_at. replace (S j - 1)%nat with j by lia.
  cbn [attempt_steps]. rewrite backoffs_S, flat_map_app. reflexivity.
Qed.

Lemma calls_attempt_steps req n : calls (attempt_steps req n) = repeat req n.
Proof.
  destruct n as [|n]; [reflexivity|]. cbn [attempt_steps calls repeat]. f_equal.
  replace n with (List.length (backoffs n)) at 2
    by (unfold backoffs; now rewrite length_map, length_seq).
  generalize (backoffs n). intros l. induction l as [|d l IH]; simpl; congruence.
Qed.

Lemma sleeps_attempt_steps req n : sleeps (attempt_steps req n) = backoffs (n - 1).
Proof.
  destruct n as [|n]; [reflexivity|]. cbn [attempt_steps sleeps].
  replace (S n - 1)%nat with n by lia.
  generalize (backoffs n). intros l. induction l as [|d l IH]; simpl; congruence.
Qed.

Lemma length_calls_attempt_steps req n : List.length (calls (attempt_steps req n)) = n.
Proof. now rewrite calls_attempt_steps, repeat_length. Qed.

Lemma get_url_run et w :
  exists url, _get_ingest_service_url et w = (Return url, w).
Proof.
  unfold _get_ingest_service_url, _get_ingest_service_host, bind, getenv, ret.
  repeat match goal with |- context [if ?b then _ else _] => destruct b end; eauto.
Qed.

Lemma url_reads_environment et w w1 url :
  environ w1 = environ w ->
  _get_ingest_service_url et w = (Return url, w) ->
  _get_ingest_service_url et w1 = (Return url, w1).
Proof.
  unfold _get_ingest_service_url, _get_ingest_service_host, bind, getenv, ret.
  intros ->.
  repeat match goal with |- context [if ?b then _ else _] => destruct b end;
    intros [= <-]; reflexivity.
Qed.

(** With a URL that [request.Request] takes, [do_request] is one call
    of [urlopen]; with another, it raises before any call. *)
Lemma do_request_to et p w url :
  _get_ingest_service_url et w = (Return url, w) ->
  url_accepted w url = true ->
  do_request et p w = urlopen (request_to url p) w.
Proof.
  intros H Ha. unfold do_request, bind, new_request. rewrite H, Ha. reflexivity.
Qed.

Lemma do_request_rejected et p w url :
  _get_ingest_service_url et w = (Return url, w) ->
  url_accepted w url = false ->
  do_request et p w = (Raise (OtherError "ValueError"), w).
Proof.
  intros H Ha. unfold do_request, bind, new_request. rewrite H, Ha. reflexivity.
Qed.

Lemma wrapper_loop_exhausted func fuel b w :
  wrapper_loop func fuel b MAX_RETRIES w = (Raise MaxRetriesException, w).
Proof. destruct fuel; reflexivity. Qed.

(** The iteration budget of the model is never what stops the loop:
    [MAX_RETRIES] iterations are enough for any decorated function. *)
Lemma wrapper_loop_fuel_enough (func : M Response) :
  (forall w, fst (func w) <> OutOfFuel) ->
  forall fuel b r w,
    MAX_RETRIES - r <= Z.of_nat fuel ->
    fst (wrapper_loop func fuel b r w) <> OutOfFuel.
Proof.
  intros Hfunc. induction fuel as [|fuel IH]; intros b r w Hfuel.
  - cbn [wrapper_loop].
    replace (r <? MAX_RETRIES) with false by (symmetry; apply Z.ltb_ge; lia).
    discriminate.
  - cbn [wrapper_loop]. destruct (r <? MAX_RETRIES) eqn:Hr; [|discriminate].
    assert (Hnext : forall b' w', fst (wrapper_loop func fuel b' (r + 1) w') <> OutOfFuel).
    { intros b' w'. apply IH. lia. }
    unfold bind at 1.
    destruct (0 <? r); cbn [bind print sleep ret fst snd];
      unfold try_except_else;
      match goal with
      | |- context [func ?w0] =>
          specialize (Hfunc w0); destruct (func w0) as [[resp|e|] w1]
      end; cbn [fst] in *; try congruence; try discriminate;
      (destruct e; try discriminate;
       [ repeat match goal with
                | |- context [if ?c then _ else _] => destruct c
                end; try discriminate; apply Hnext
       | unfold bind, print; apply Hnext ]).
Qed.

Lemma wrapper_func_fuel_enough (func : M Response) (w : World) :
  (forall w', fst (func w') <> OutOfFuel) ->
  fst (wrapper_func func w) <> OutOfFuel.
Proof.
  intros Hfunc. apply wrapper_loop_fuel_enough; [assumption|].
  unfold MAX_RETRIES. simpl. lia.
Qed.

(** One iteration of the loop, for a URL that [request.Request] takes:
    the sleep of the backoff unless it is the first iteration, then the
    call, then what the reply decides. *)
Lemma loop_step et p url fuel b r w :
  _get_ingest_service_url et w = (Return url, w) ->
  url_accepted w url = true ->
  r < MAX_RETRIES ->
  let loop := wrapper_loop (do_request et p) (S fuel) b r w in
  let next := wrapper_loop (do_request et p) fuel
                (if 0 <? r then b * BACKOFF_MULTIPLIER else b) (r + 1) in
  let step w1 :=
    advances w w1 ((if 0 <? r then [Slept b] else []) ++ [Called (request_to url p)]) in
  match upcoming w 0 with
  | HttpOk code => exists w1, step w1 /\ loop = (Return (mkResponse code), w1)
  | HttpFail code msg =>
      if (400 <=? code) && (code <? 500) then
        exists w1 text, step w1 /\
          loop = (Raise (if code =? 429 then ThrottlingException text
                         else BadRequestException text), w1)
      else exists w1, step w1 /\ loop = next w1
  | NetFail _ => exists w1, step w1 /\ loop = next w1
  | OtherFail what => exists w1, step w1 /\ loop = (Raise (OtherError what), w1)
  end.
Proof.
  intros Hurl Hacc Hr loop next step. subst loop next step.
  assert (Hlt : (r <? MAX_RETRIES) = true) by (apply Z.ltb_lt; lia).
  assert (Hpre : exists w0,
             (if 0 <? r
              then print ("Retrying in " ++ str_of_Z b ++ " seconds") ;;
                   sleep b ;; ret (b * BACKOFF_MULTIPLIER)
              else ret b) w
             = (Return (if 0 <? r then b * BACKOFF_MULTIPLIER else b), w0)
             /\ advances w w0 (if 0 <? r then [Slept b] else [])).
  { destruct (0 <? r).
    - eexists. split; [reflexivity|]. unfold advances; simpl.
      rewrite app_nil_r. tauto.
    - eexists. split; [reflexivity|]. apply advances_refl. }
  destruct Hpre as (w0 & Hpre & Hw0).
  set (req := request_to url p).
  assert (Hreq : do_request et p w0 = urlopen req w0).
  { destruct Hw0 as (_ & He & Ha & _). apply do_request_to.
    - exact (url_reads_environment et w w0 url He Hurl).
    - now rewrite Ha. }
  assert (Hup : net w0 (List.length (sent w0)) = upcoming w 0).
  { pose proof (upcoming_advances w w0 _ 0 Hw0) as H. unfold upcoming in *.
    rewrite Nat.add_0_r in H. rewrite H. f_equal.
    destruct (0 <? r); simpl; lia. }
  assert (Hstep : forall out,
             advances w (mkWorld (net w0) (environ w0) (url_accepted w0) (s3_objects w0)
                           (sent w0 ++ [req]) (slept w0) out (timeline w0 ++ [Called req]))
                      ((if 0 <? r then [Slept b] else []) ++ [Called req])).
  { intros out. apply (advances_trans _ w0); [exact Hw0|].
    unfold advances; simpl. rewrite app_nil_r. tauto. }
  assert (Hloop : wrapper_loop (do_request et p) (S fuel) b r w =
    try_except_else (urlopen req)
          (fun e =>
             match e with
             | HTTPError code _ =>
                 if code =? 400 then
                   raise (BadRequestException (_format_error e "Unexpected payload"))
                 else if code =? 403 then
                   raise (BadRequestException (_format_error e "Review your license key"))
                 else if code =? 404 then
                   raise (BadRequestException (_format_error e "Review the region endpoint"))
                 else if code =? 429 then
                   raise (ThrottlingException (_format_error e "Too many requests"))
                 else if (400 <=? code) && (code <? 500) then
                   raise (BadRequestException (str_exn e))
                 else wrapper_loop (do_request et p) fuel
                        (if 0 <? r then b * BACKOFF_MULTIPLIER else b) (r + 1)
             | URLError reason =>
                 print ("There was an error. Reason: " ++ reason) ;;
                 wrapper_loop (do_request et p) fuel
                   (if 0 <? r then b * BACKOFF_MULTIPLIER else b) (r + 1)
             | _ => raise e
             end)
          (fun response => ret response) w0).
  { cbn [wrapper_loop]. rewrite Hlt. unfold bind at 1. rewrite Hpre.
    unfold try_except_else. rewrite Hreq. reflexivity. }
  rewrite Hloop. unfold try_except_else, urlopen. rewrite Hup.
  destruct (upcoming w 0) as [code|code msg|reason|what].
  - eexists; split; [apply Hstep|reflexivity].
  - destruct ((400 <=? code) && (code <? 500)) eqn:H4.
    + destruct (code =? 400) eqn:E0;
        [eexists; eexists; split; [apply Hstep|];
         destruct (code =? 429) eqn:E9; [lia|reflexivity]|].
      destruct (code =? 403) eqn:E3;
        [eexists; eexists; split; [apply Hstep|];
         destruct (code =? 429) eqn:E9; [lia|reflexivity]|].
      destruct (code =? 404) eqn:E4;
        [eexists; eexists; split; [apply Hstep|];
         destruct (code =? 429) eqn:E9; [lia|reflexivity]|].
      destruct (code =? 429) eqn:E9;
        eexists; eexists; (split; [apply Hstep|reflexivity]).
    + assert (((code =? 400) = false) /\ ((code =? 403) = false) /\
              ((code =? 404) = false) /\ ((code =? 429) = false)) as (->&->&->&->).
      { apply andb_false_iff in H4. repeat split; apply Z.eqb_neq; intros ->;
          destruct H4 as [H4|H4]; discriminate. }
      eexists; split; [apply Hstep|reflexivity].
  - unfold bind, print. simpl. eexists; split; [apply Hstep|reflexivity].
  - eexists; split; [apply Hstep|reflexivity].
Qed.

Lemma url_advances et w w' evs url :
  advances w w' evs ->
  _get_ingest_service_url et w = (Return url, w) ->
  url_accepted w url = true ->
  _get_ingest_service_url et w' = (Return url, w') /\ url_accepted w' url = true.
Proof.
  intros (_ & He & Ha & _) Hurl Hacc. split.
  - exact (url_reads_environment et w w' url He Hurl).
  - now rewrite Ha.
Qed.

(** Loop invariant: after [j] retryable failures the loop is at its
    head with [retries = j]; it has made [j] calls, each but the first
    right after the sleep of its backoff, and nothing since the last
    call. *)
Lemma retry_prefix et p url w j :
  _get_ingest_service_url et w = (Return url, w) ->
  url_accepted w url = true ->
  (j <= 3)%nat ->
  (forall i, (i < j)%nat -> retryable (upcoming w i) = true) ->
  exists wj,
    advances w wj (attempt_steps (request_to url p) j) /\
    wrapper_func (do_request et p) w =
    wrapper_loop (do_request et p) (3 - j) (backoff_at j) (Z.of_nat j) wj.
Proof.
  intros Hurl Hacc. induction j as [|j IH]; intros Hj Hpre.
  - exists w. split; [apply advances_refl | reflexivity].
  - destruct IH as (wj & Hext & Hrun); [lia | intros; apply Hpre; lia |].
    rewrite Hrun. replace (3 - j)%nat with (S (3 - S j)) by lia.
    assert (Hr : Z.of_nat j < MAX_RETRIES) by (unfold MAX_RETRIES; lia).
    destruct (url_advances et w wj _ url Hext Hurl Hacc) as [Hurlj Haccj].
    pose proof (loop_step et p url (3 - S j) (backoff_at j) (Z.of_nat j) wj
                  Hurlj Haccj Hr) as Hstep.
    cbv zeta in Hstep.
    rewrite (upcoming_advances _ _ _ 0 Hext), length_calls_attempt_steps,
      Nat.add_0_r in Hstep.
    specialize (Hpre j ltac:(lia)).
    rewrite backoff_at_step in Hstep.
    replace (Z.of_nat j + 1) with (Z.of_nat (S j)) in Hstep by lia.
    assert (Hgoal : forall w1,
               advances wj w1 ((if 0 <? Z.of_nat j then [Slept (backoff_at j)] else [])
                               ++ [Called (request_to url p)]) ->
               advances w w1 (attempt_steps (request_to url p) (S j))).
    { intros w1 H1. pose proof (advances_trans _ _ _ _ _ Hext H1) as H.
      now rewrite attempt_steps_S in H. }
    destruct (upcoming w j) as [code|code msg|reason|what]; simpl in Hpre;
      try discriminate.
    + apply negb_true_iff in Hpre. rewrite Hpre in Hstep.
      destruct Hstep as (w1 & H1 & ->). exists w1; split; auto.
    + destruct Hstep as (w1 & H1 & ->). exists w1; split; auto.
Qed.

(** What the [j + 1]-th attempt decides when the [j] before it failed
    with retryable failures: the run ends with the call of that
    attempt. *)
Lemma attempt_decides et p url w j :
  _get_ingest_service_url et w = (Return url, w) ->
  url_accepted w url = true ->
  (j < 3)%nat ->
  (forall i, (i < j)%nat -> retryable (upcoming w i) = true) ->
  match upcoming w j with
  | HttpOk code =>
      exists w', advances w w' (attempt_steps (request_to url p) (S j)) /\
        wrapper_func (do_request et p) w = (Return (mkResponse code), w')
  | HttpFail code msg =>
      if (400 <=? code) && (code <? 500) then
        exists w' text, advances w w' (attempt_steps (request_to url p) (S j)) /\
          wrapper_func (do_request et p) w =
          (Raise (if code =? 429 then ThrottlingException text
                  else BadRequestException text), w')
      else True
  | NetFail _ => True
  | OtherFail what =>
      exists w', advances w w' (attempt_steps (request_to url p) (S j)) /\
        wrapper_func (do_request et p) w = (Raise (OtherError what), w')
  end.
Proof.
  intros Hurl Hacc Hj Hpre.
  destruct (retry_prefix et p url w j Hurl Hacc) as (wj & Hext & Hrun); [lia | auto |].
  rewrite Hrun. replace (3 - j)%nat with (S (2 - j)) by lia.
  assert (Hr : Z.of_nat j < MAX_RETRIES) by (unfold MAX_RETRIES; lia).
  destruct (url_advances et w wj _ url Hext Hurl Hacc) as [Hurlj Haccj].
  pose proof (loop_step et p url (2 - j) (backoff_at j) (Z.of_nat j) wj
                Hurlj Haccj Hr) as Hstep.
  cbv zeta in Hstep.
  rewrite (upcoming_advances _ _ _ 0 Hext), length_calls_attempt_steps,
    Nat.add_0_r in Hstep.
  assert (Hgoal : forall w1,
             advances wj w1 ((if 0 <? Z.of_nat j then [Slept (backoff_at j)] else [])
                             ++ [Called (request_to url p)]) ->
             advances w w1 (attempt_steps (request_to url p) (S j))).
  { intros w1 H1. pose proof (advances_trans _ _ _ _ _ Hext H1) as H.
    now rewrite attempt_steps_S in H. }
  destruct (upcoming w j) as [code|code msg|reason|what]; auto.
  - destruct Hstep as (w1 & H1 & ->). eauto.
  - destruct ((400 <=? code) && (code <? 500)); auto.
    destruct Hstep as (w1 & text & H1 & ->). eauto.
  - destruct Hstep as (w1 & H1 & ->). eauto.
Qed.

(** C2. For a URL that [request.Request] takes.  When every attempt
    fails with a retryable failure, exactly MAX_RETRIES = 3 attempts are
    made and MaxRetriesException is raised; the sleeps are
    INITIAL_BACKOFF * BACKOFF_MULTIPLIER ^ (n - 2) right before attempt
    n = 2, 3, that is: call, sleep 1, call, sleep 2, call, and nothing
    after the last call.  When the [k]-th attempt is the first to
    succeed, exactly [k] attempts are made, in the same order of calls
    and sleeps, and the response of the last call is returned. *)
Theorem retry_budget_and_backoff (et : EntryType) (p : list byte) (w : World)
    (url : string) :
  _get_ingest_service_url et w = (Return url, w) ->
  url_accepted w url = true ->
  let req := request_to url p in
  ((forall i, (i < 3)%nat -> retryable (upcoming w i) = true) ->
   exists w',
     http_retryable (do_request et p) w = (Raise MaxRetriesException, w') /\
     attempts w w' = MAX_RETRIES /\
     slept w' = (slept w ++ backoffs 2)%list /\ backoffs 2 = [1; 2] /\
     timeline w' =
     (timeline w ++ [Called req; Slept 1; Called req; Slept 2; Called req])%list) /\
  (forall k code,
     (1 <= k <= 3)%nat ->
     (forall i, (i < k - 1)%nat -> retryable (upcoming w i) = true) ->
     upcoming w (k - 1) = HttpOk code ->
     exists w',
       http_retryable (do_request et p) w = (Return (mkResponse code), w') /\
       attempts w w' = Z.of_nat k /\
       slept w' = (slept w ++ backoffs (k - 1))%list /\
       timeline w' = (timeline w ++ attempt_steps req k)%list /\
       attempt_steps req k =
       firstn (2 * k - 1) [Called req; Slept 1; Called req; Slept 2; Called req]).
Proof.
  intros Hurl Hacc req. split.
  - intros Hall.
    destruct (retry_prefix et p url w 3 Hurl Hacc) as (w3 & Hext & Hrun); [lia | auto |].
    exists w3. unfold http_retryable. rewrite Hrun.
    change (Z.of_nat 3) with MAX_RETRIES. rewrite wrapper_loop_exhausted.
    split; [reflexivity|]. split; [|split; [|split; [reflexivity|]]].
    + now rewrite (attempts_advances _ _ _ Hext), length_calls_attempt_steps.
    + now rewrite (slept_advances _ _ _ Hext), sleeps_attempt_steps.
    + apply (timeline_advances _ _ _ Hext).
  - intros k code Hk Hpre Hok.
    pose proof (attempt_decides et p url w (k - 1) Hurl Hacc ltac:(lia) Hpre) as H.
    rewrite Hok in H. destruct H as (w' & Hext & Hrun).
    replace (S (k - 1)) with k in Hext by lia.
    exists w'. split; [exact Hrun|]. split; [|split; [|split]].
    + now rewrite (attempts_advances _ _ _ Hext), length_calls_attempt_steps.
    + now rewrite (slept_advances _ _ _ Hext), sleeps_attempt_steps.
    + apply (timeline_advances _ _ _ Hext).
    + destruct k as [|[|[|[|k]]]]; try lia; reflexivity.
Qed.

(** Whatever the replies, the loop only adds events. *)
Lemma loop_advances et p url fuel : forall b r w,
  _get_ingest_service_url et w = (Return url, w) ->
  url_accepted w url = true ->
  exists evs, advances w (snd (wrapper_loop (do_request et p) fuel b r w)) evs.
Proof.
  induction fuel as [|fuel IH]; intros b r w Hurl Hacc.
  - exists []. simpl. destruct (r <? MAX_RETRIES); apply advances_refl.
  - destruct (Z_lt_dec r MAX_RETRIES) as [Hr|Hr].
    + pose proof (loop_step et p url fuel b r w Hurl Hacc Hr) as Hstep.
      cbv zeta in Hstep.
      assert (Hnext : forall w1 evs1, advances w w1 evs1 ->
                exists evs,
                  advances w (snd (wrapper_loop (do_request et p) fuel
                                     (if 0 <? r then b * BACKOFF_MULTIPLIER else b)
                                     (r + 1) w1)) evs).
      { intros w1 evs1 H1.
        destruct (url_advances et w w1 _ url H1 Hurl Hacc) as [Hurl1 Hacc1].
        destruct (IH (if 0 <? r then b * BACKOFF_MULTIPLIER else b) (r + 1) w1
                     Hurl1 Hacc1) as (evs & H2).
        eexists. eapply advances_trans; eauto. }
      destruct (upcoming w 0) as [code|code msg|reason|what].
      * destruct Hstep as (w1 & H1 & ->). eauto.
      * destruct ((400 <=? code) && (code <? 500)).
        -- destruct Hstep as (w1 & text & H1 & ->). eauto.
        -- destruct Hstep as (w1 & H1 & ->). eauto.
      * destruct Hstep as (w1 & H1 & ->). eauto.
      * destruct Hstep as (w1 & H1 & ->). eauto.
    + exists []. cbn [wrapper_loop].
      replace (r <? MAX_RETRIES) with false by (symmetry; apply Z.ltb_ge; lia).
      apply advances_refl.
Qed.

(** An iteration of the loop sleeps the backoff (when it is not the
    first) and then makes a call, whatever the reply. *)
Lemma loop_attempts_once et p url fuel b r w :
  _get_ingest_service_url et w = (Return url, w) ->
  url_accepted w url = true ->
  r < MAX_RETRIES ->
  exists later,
    advances w (snd (wrapper_loop (do_request et p) (S fuel) b r w))
      (((if 0 <? r then [Slept b] else []) ++ [Called (request_to url p)]) ++ later).
Proof.
  intros Hurl Hacc Hr.
  pose proof (loop_step et p url fuel b r w Hurl Hacc Hr) as Hstep. cbv zeta in Hstep.
  set (evs1 := ((if 0 <? r then [Slept b] else []) ++ [Called (request_to url p)])%list)
    in *.
  assert (Hnext : forall w1,
    advances w w1 evs1 ->
    exists later,
      advances w (snd (wrapper_loop (do_request et p) fuel
                        (if 0 <? r then b * BACKOFF_MULTIPLIER else b) (r + 1) w1))
              (evs1 ++ later)).
  { intros w1 H1.
    destruct (url_advances et w w1 _ url H1 Hurl Hacc) as [Hurl1 Hacc1].
    destruct (loop_advances et p url fuel
                (if 0 <? r then b * BACKOFF_MULTIPLIER else b) (r + 1) w1 Hurl1 Hacc1)
      as (later & H2).
    exists later. eapply advances_trans; eauto. }
  assert (Hstop : forall w1,
    advances w w1 evs1 -> exists later, advances w w1 (evs1 ++ later)).
  { intros w1 H1. exists []. now rewrite app_nil_r. }
  destruct (upcoming w 0) as [code|code msg|reason|what].
  - destruct Hstep as (w1 & H1 & ->). auto.
  - destruct ((400 <=? code) && (code <? 500)).
    + destruct Hstep as (w1 & text & H1 & ->). auto.
    + destruct Hstep as (w1 & H1 & ->). auto.
  - destruct Hstep as (w1 & H1 & ->). auto.
  - destruct Hstep as (w1 & H1 & ->). auto.
Qed.

(** C4. Classification of the replies by the transport, for a URL that
    [request.Request] takes.  After [j] retryable failures ([j] = 0
    for a first attempt): a 4xx status other than 429 (400, 403, 404
    included) raises BadRequestException at once: the call that got the
    status is the last event of the run, no sleep and no attempt come
    after it (and with [j] = 0 the run is that one call, with no sleep
    at all); 429 raises ThrottlingException at once in the same way; a
    5xx status or a URLError is retryable, and a retryable failure that
    is not the last attempt is followed by the sleep of the backoff and
    then by one more attempt; a response is returned as success, the
    call that got it being the last event. *)
Theorem transport_classifies_replies (et : EntryType) (p : list byte) (w : World)
    (url : string) :
  _get_ingest_service_url et w = (Return url, w) ->
  url_accepted w url = true ->
  let req := request_to url p in
  (forall j code msg,
     (j < 3)%nat ->
     (forall i, (i < j)%nat -> retryable (upcoming w i) = true) ->
     upcoming w j = HttpFail code msg -> fatal_code code = true ->
     exists w' text,
       http_retryable (do_request et p) w = (Raise (BadRequestException text), w') /\
       attempts w w' = Z.of_nat j + 1 /\
       slept w' = (slept w ++ backoffs j)%list /\
       (j = 0%nat -> slept w' = slept w) /\
       timeline w' = (timeline w ++ attempt_steps req (S j))%list /\
       (j = 0%nat -> timeline w' = (timeline w ++ [Called req])%list)) /\
  (forall j msg,
     (j < 3)%nat ->
     (forall i, (i < j)%nat -> retryable (upcoming w i) = true) ->
     upcoming w j = HttpFail 429 msg ->
     exists w' text,
       http_retryable (do_request et p) w = (Raise (ThrottlingException text), w') /\
       attempts w w' = Z.of_nat j + 1 /\
       slept w' = (slept w ++ backoffs j)%list /\
       timeline w' = (timeline w ++ attempt_steps req (S j))%list) /\
  ((forall code msg, 500 <= code < 600 -> retryable (HttpFail code msg) = true) /\
   (forall reason, retryable (NetFail reason) = true) /\
   (forall j,
      (j + 1 < 3)%nat ->
      (forall i, (i <= j)%nat -> retryable (upcoming w i) = true) ->
      exists r w' later,
        http_retryable (do_request et p) w = (r, w') /\
        attempts w w' >= Z.of_nat j + 2 /\
        slept w' = (slept w ++ backoffs (j + 1) ++ sleeps later)%list /\
        timeline w' =
        (timeline w ++ attempt_steps req (S j)
           ++ [Slept (INITIAL_BACKOFF * BACKOFF_MULTIPLIER ^ Z.of_nat j); Called req]
           ++ later)%list)) /\
  (forall j code,
     (j < 3)%nat ->
     (forall i, (i < j)%nat -> retryable (upcoming w i) = true) ->
     upcoming w j = HttpOk code ->
     exists w',
       http_retryable (do_request et p) w = (Return (mkResponse code), w') /\
       attempts w w' = Z.of_nat j + 1 /\
       slept w' = (slept w ++ backoffs j)%list /\
       timeline w' = (timeline w ++ attempt_steps req (S j))%list).
Proof.
  intros Hurl Hacc req.
  assert (Hsteps : forall w' j,
            advances w w' (attempt_steps req (S j)) ->
            attempts w w' = Z.of_nat j + 1 /\
            slept w' = (slept w ++ backoffs j)%list /\
            timeline w' = (timeline w ++ attempt_steps req (S j))%list).
  { intros w' j Hext.
    rewrite (attempts_advances _ _ _ Hext), length_calls_attempt_steps.
    rewrite (slept_advances _ _ _ Hext), sleeps_attempt_steps.
    replace (S j - 1)%nat with j by lia.
    split; [lia|]. split; [reflexivity|]. apply (timeline_advances _ _ _ Hext). }
  split; [|split; [|split; [split; [|split]|]]].
  - intros j code msg Hj Hpre Hrep Hfatal.
    pose proof (attempt_decides et p url w j Hurl Hacc Hj Hpre) as H. rewrite Hrep in H.
    unfold fatal_code in Hfatal. apply andb_true_iff in Hfatal as [H4 H9].
    rewrite H4 in H. apply negb_true_iff in H9. rewrite H9 in H.
    destruct H as (w' & text & Hext & Hrun). exists w', text.
    destruct (Hsteps w' j Hext) as (Ha & Hs & Ht).
    split; [exact Hrun|]. split; [exact Ha|]. split; [exact Hs|].
    split; [|split; [exact Ht|]].
    + intros ->. rewrite Hs. apply app_nil_r.
    + intros ->. exact Ht.
  - intros j msg Hj Hpre Hrep.
    pose proof (attempt_decides et p url w j Hurl Hacc Hj Hpre) as H. rewrite Hrep in H.
    simpl in H. destruct H as (w' & text & Hext & Hrun). exists w', text.
    destruct (Hsteps w' j Hext) as (Ha & Hs & Ht). auto.
  - intros code msg Hc. simpl. apply negb_true_iff, andb_false_iff. right.
    apply Z.ltb_ge. lia.
  - reflexivity.
  - intros j Hj Hpre.
    destruct (retry_prefix et p url w (S j) Hurl Hacc) as (wj & Hext & Hrun);
      [lia | intros; apply Hpre; lia |].
    assert (Hr : Z.of_nat (S j) < MAX_RETRIES) by (unfold MAX_RETRIES; lia).
    replace (3 - S j)%nat with (S (1 - j)) in Hrun by lia.
    destruct (url_advances et w wj _ url Hext Hurl Hacc) as [Hurlj Haccj].
    destruct (loop_attempts_once et p url (1 - j) (backoff_at (S j)) (Z.of_nat (S j)) wj
                Hurlj Haccj Hr) as (later & Hmore).
    rewrite <- Hrun in Hmore.
    pose proof (advances_trans _ _ _ _ _ Hext Hmore) as Hall.
    replace (0 <? Z.of_nat (S j)) with true in Hall by (symmetry; apply Z.ltb_lt; lia).
    unfold backoff_at in Hall. replace (S j - 1)%nat with j in Hall by lia.
    unfold http_retryable.
    destruct (wrapper_func (do_request et p) w) as [r w'] eqn:E.
    cbn [snd app] in Hall.
    exists r, w', later. split; [reflexivity|]. split; [|split].
    + rewrite (attempts_advances _ _ _ Hall), calls_app, length_app,
        length_calls_attempt_steps. cbn [calls List.length]. lia.
    + rewrite (slept_advances _ _ _ Hall), sleeps_app, sleeps_attempt_steps.
      replace (S j - 1)%nat with j by lia. replace (j + 1)%nat with (S j) by lia.
      rewrite backoffs_S. cbn [sleeps]. now rewrite <- !app_assoc.
    + rewrite (timeline_advances _ _ _ Hall). reflexivity.
  - intros j code Hj Hpre Hrep.
    pose proof (attempt_decides et p url w j Hurl Hacc Hj Hpre) as H. rewrite Hrep in H.
    destruct H as (w' & Hext & Hrun). exists w'.
    destruct (Hsteps w' j Hext) as (Ha & Hs & Ht). auto.
Qed.

(** ** The dispatcher *)

Lemma for_each_app {A} (xs ys : list A) (body : A -> M unit) w w1 :
  for_each xs body w = (Return tt, w1) ->
  for_each (xs ++ ys) body w = for_each ys body w1.
Proof.
  revert w. induction xs as [|x xs IH]; intros w H; simpl in *.
  - now injection H as ->.
  - unfold bind in *. destruct (body x w) as [[[]| |] w0]; try discriminate.
    now apply IH.
Qed.

Lemma send_log_entry_unfold {codec : Codec} fuel log_entry ctx payloads w :
  _generate_payloads fuel (envelope log_entry ctx) = Return payloads ->
  _send_log_entry fuel log_entry ctx w =
  for_each payloads (fun payload => _send_payload (_get_entry_type log_entry) payload) w.
Proof.
  intros H. unfold _send_log_entry, bind, lift. fold (envelope log_entry ctx).
  now rewrite H.
Qed.

Lemma send_payload_bad_request et p w text :
  fst (http_retryable (do_request et p) w) = Raise (BadRequestException text) ->
  _send_payload et p w =
  (Return tt, snd (print text (snd (http_retryable (do_request et p) w)))).
Proof.
  unfold _send_payload, try_except_else.
  destruct (http_retryable (do_request et p) w) as [r w']; simpl.
  intros ->. reflexivity.
Qed.

Lemma send_payload_max_retries et p w :
  fst (http_retryable (do_request et p) w) = Raise MaxRetriesException ->
  _send_payload et p w =
  (Raise MaxRetriesException,
   snd (print "Retry limit reached. Failed to send log entry."
          (snd (http_retryable (do_request et p) w)))).
Proof.
  unfold _send_payload, try_except_else.
  destruct (http_retryable (do_request et p) w) as [r w']; simpl.
  intros ->. reflexivity.
Qed.

(** C6. Let the payloads of a record be [before ++ p :: after] and
    let the ones in [before] have been sent.  If the transport raises
    BadRequestException for [p], [_send_payload] prints it and returns,
    and [_send_log_entry] goes on with the payloads in [after].  If the
    transport raises MaxRetriesException, [_send_payload] prints and
    re-raises it, and [_send_log_entry] stops there: nothing in
    [after] is sent. *)
Theorem dispatcher_partial_failure {codec : Codec}
    (fuel : nat) (log_entry : string) (ctx : LambdaContext)
    (before after : list (list byte)) (p : list byte) (w w1 : World) :
  let send := fun payload => _send_payload (_get_entry_type log_entry) payload in
  let transport := http_retryable (do_request (_get_entry_type log_entry) p) w1 in
  _generate_payloads fuel (envelope log_entry ctx) = Return (before ++ p :: after)%list ->
  for_each before send w = (Return tt, w1) ->
  (forall text,
     fst transport = Raise (BadRequestException text) ->
     send p w1 = (Return tt, snd (print text (snd transport))) /\
     _send_log_entry fuel log_entry ctx w =
     for_each after send (snd (print text (snd transport)))) /\
  (fst transport = Raise MaxRetriesException ->
   let w2 := snd (print "Retry limit reached. Failed to send log entry."
                    (snd transport)) in
   send p w1 = (Raise MaxRetriesException, w2) /\
   _send_log_entry fuel log_entry ctx w = (Raise MaxRetriesException, w2)).
Proof.
  intros send transport Hgen Hbefore.
  rewrite (send_log_entry_unfold _ _ _ _ _ Hgen).
  rewrite (for_each_app _ _ _ _ _ Hbefore). fold send.
  split.
  - intros text Hbad. pose proof (send_payload_bad_request _ _ _ _ Hbad) as Hp.
    split; [exact Hp|]. cbn [for_each]. unfold bind. fold send.
    unfold send at 1. rewrite Hp. reflexivity.
  - intros Hmax w2. pose proof (send_payload_max_retries _ _ _ Hmax) as Hp.
    split; [exact Hp|]. cbn [for_each]. unfold bind.
    unfold send at 1. rewrite Hp. reflexivity.
Qed.

(** ** The credential header *)

Lemma do_request_sends et p w url :
  _get_ingest_service_url et w = (Return url, w) ->
  url_accepted w url = true ->
  exists req,
    sent (snd (do_request et p w)) = (sent w ++ [req])%list /\
    req_data req = p /\
    header_get (req_headers req) "X-License-Key" = Some _get_license_key.
Proof.
  intros Hurl Hacc. rewrite (do_request_to et p w url Hurl Hacc).
  exists (request_to url p). repeat split; auto.
  unfold urlopen. destruct (net w (List.length (sent w))); reflexivity.
Qed.

(** ** The payload splitter *)

(** ** Dicts *)

Lemma dict_get_set kvs k v : dict_get (dict_set kvs k v) k = Some v.
Proof.
  induction kvs as [|[k' v'] kvs IH]; simpl.
  - now rewrite String.eqb_refl.
  - destruct (String.eqb k' k) eqn:E; simpl; now rewrite E.
Qed.

Lemma dict_set_set kvs k v v' : dict_set (dict_set kvs k v) k v' = dict_set kvs k v'.
Proof.
  induction kvs as [|[k' u] kvs IH]; simpl.
  - now rewrite String.eqb_refl.
  - destruct (String.eqb k' k) eqn:E; simpl; rewrite E; [reflexivity|now rewrite IH].
Qed.

Lemma dict_set_keys kvs k v :
  map fst (dict_set kvs k v) =
  if existsb (String.eqb k) (map fst kvs) then map fst kvs
  else (map fst kvs ++ [k])%list.
Proof.
  induction kvs as [|[k' u] kvs IH]; simpl; [reflexivity|].
  rewrite (String.eqb_sym k k').
  destruct (String.eqb k' k) eqn:E; simpl; [reflexivity|].
  rewrite IH. now destruct (existsb (String.eqb k) (map fst kvs)).
Qed.

Lemma nodup_keys_snoc ks k :
  nodup_keys ks = true -> existsb (String.eqb k) ks = false ->
  nodup_keys (ks ++ [k]) = true.
Proof.
  induction ks as [|k' ks IH]; simpl; [reflexivity|].
  intros H1 H2. apply andb_true_iff in H1 as [Ha Hb].
  apply orb_false_iff in H2 as [Hc Hd].
  rewrite IH by assumption. rewrite andb_true_r.
  apply negb_true_iff. rewrite existsb_app. simpl.
  apply negb_true_iff in Ha. rewrite Ha. simpl.
  rewrite String.eqb_sym. now rewrite Hc.
Qed.

Lemma dict_set_wf kvs k v :
  pyval_wf (PDict kvs) = true -> pyval_wf v = true ->
  pyval_wf (PDict (dict_set kvs k v)) = true.
Proof.
  cbn [pyval_wf]. intros H Hv. apply andb_true_iff in H as [Hk Hvs].
  apply andb_true_iff. split.
  - rewrite dict_set_keys.
    destruct (existsb (String.eqb k) (map fst kvs)) eqn:E; [assumption|].
    now apply nodup_keys_snoc.
  - clear Hk. induction kvs as [|[k' u] kvs IH]; simpl in *.
    + now rewrite Hv.
    + apply andb_true_iff in Hvs as [Hu Hrest].
      destruct (String.eqb k' k); simpl.
      * now rewrite Hv, Hrest.
      * now rewrite Hu, IH.
Qed.

Lemma dict_get_wf kvs k v :
  pyval_wf (PDict kvs) = true -> dict_get kvs k = Some v -> pyval_wf v = true.
Proof.
  cbn [pyval_wf]. intros H. apply andb_true_iff in H as [_ H].
  induction kvs as [|[k' u] kvs IH]; simpl in *; [discriminate|].
  apply andb_true_iff in H as [Hu Hrest].
  destruct (String.eqb k' k); [intros [= <-]; assumption | auto].
Qed.

Lemma forallb_firstn {A} (f : A -> bool) n l :
  forallb f l = true -> forallb f (firstn n l) = true.
Proof.
  revert n. induction l as [|x l IH]; intros [|n]; simpl; auto.
  intros H. apply andb_true_iff in H as [-> H]. simpl. auto.
Qed.

Lemma forallb_skipn {A} (f : A -> bool) n l :
  forallb f l = true -> forallb f (skipn n l) = true.
Proof.
  revert n. induction l as [|x l IH]; intros [|n]; simpl; auto.
  intros H. apply andb_true_iff in H as [_ H]. auto.
Qed.

Section SplitterProofs.
Context {codec : Codec} {laws : CodecLaws codec}.

(** *** What [_split] returns *)

Lemma half_of_Z evs : Z.to_nat (Z.of_nat (List.length evs) / 2) = half_of evs.
Proof.
  unfold half_of.
  rewrite <- (Nat2Z.id (List.length evs / 2)). f_equal.
  now rewrite Nat2Z.inj_div.
Qed.

Lemma split_parsed (data : Data) kvs evs :
  json_loads (entry data) = Some (PDict kvs) ->
  dict_get kvs "logEvents" = Some (PList evs) ->
  _split data =
  Return (sub_envelope (context data) kvs (firstn (half_of evs) evs),
          sub_envelope (context data) kvs (skipn (half_of evs) evs)).
Proof.
  intros Hload Hget. unfold _split. rewrite Hload. cbn [rbind getitem_str].
  rewrite Hget. cbn [rbind py_len py_slice _reconstruct_data setitem_str fst snd].
  rewrite dict_set_set. unfold sub_envelope.
  rewrite Z.sub_0_r, half_of_Z. cbn [skipn Z.to_nat].
  change (Z.to_nat 0) with 0%nat. cbn [skipn].
  do 4 f_equal.
  rewrite firstn_all2; [reflexivity|].
  rewrite length_skipn.
  assert (Hh : (half_of evs <= List.length evs)%nat).
  { unfold half_of. apply Nat.Div0.div_le_upper_bound. lia. }
  assert (Hz : 0 <= Z.of_nat (List.length evs) / 2) by (apply Z.div_pos; lia).
  assert (Z.of_nat (half_of evs) = Z.of_nat (List.length evs) / 2).
  { rewrite <- half_of_Z. rewrite Z2Nat.id; lia. }
  lia.
Qed.

Lemma sub_parse ctx kvs seg :
  pyval_wf (PDict kvs) = true -> forallb pyval_wf seg = true ->
  json_loads (entry (sub_envelope ctx kvs seg)) =
  Some (PDict (dict_set kvs "logEvents" (PList seg))).
Proof.
  intros Hk Hs. unfold sub_envelope. cbn [entry].
  apply loads_dumps. now apply dict_set_wf.
Qed.

Lemma split_sub ctx kvs seg :
  pyval_wf (PDict kvs) = true -> forallb pyval_wf seg = true ->
  _split (sub_envelope ctx kvs seg) =
  Return (sub_envelope ctx kvs (firstn (half_of seg) seg),
          sub_envelope ctx kvs (skipn (half_of seg) seg)).
Proof.
  intros Hk Hs.
  rewrite (split_parsed _ _ seg (sub_parse ctx kvs seg Hk Hs) (dict_get_set _ _ _)).
  unfold sub_envelope. cbn [context]. now rewrite !dict_set_set.
Qed.

(** *** One step of [_generate_payloads] *)

Lemma generate_fits fuel data :
  fits data = true -> _generate_payloads fuel data = Return [wire data].
Proof.
  unfold fits, wire. intros H. destruct fuel; cbn [_generate_payloads]; now rewrite H.
Qed.

Lemma generate_splits fuel data :
  fits data = false ->
  _generate_payloads (S fuel) data =
  (split_data <-- _split data ;
   first <-- _generate_payloads fuel (fst split_data) ;
   second <-- _generate_payloads fuel (snd split_data) ;
   Return (first ++ second)%list).
Proof.
  unfold fits, wire. intros H. cbn [_generate_payloads]. now rewrite H.
Qed.

Lemma generate_no_fuel data :
  fits data = false -> _generate_payloads 0 data = OutOfFuel.
Proof. unfold fits, wire. intros H. cbn [_generate_payloads]. now rewrite H. Qed.

(** A result obtained with some recursion budget is the result with
    any larger one. *)
Lemma generate_fuel_monotone fuel : forall fuel' data r,
  (fuel <= fuel')%nat ->
  _generate_payloads fuel data = r -> r <> OutOfFuel ->
  _generate_payloads fuel' data = r.
Proof.
  induction fuel as [|fuel IH]; intros fuel' data r Hle H Hr;
    destruct (fits data) eqn:Hf.
  - rewrite (generate_fits _ _ Hf) in H. rewrite (generate_fits _ _ Hf). assumption.
  - rewrite (generate_no_fuel _ Hf) in H. congruence.
  - rewrite (generate_fits _ _ Hf) in H. rewrite (generate_fits _ _ Hf). assumption.
  - destruct fuel' as [|fuel']; [lia|].
    rewrite (generate_splits _ _ Hf) in H. rewrite (generate_splits _ _ Hf).
    destruct (_split data) as [[d1 d2]|e|]; cbn [rbind fst snd] in *; try assumption.
    destruct (_generate_payloads fuel d1) as [ps1|e1|] eqn:E1; cbn [rbind] in H.
    + rewrite (IH fuel' d1 (Return ps1)); [|lia|assumption|discriminate].
      cbn [rbind].
      destruct (_generate_payloads fuel d2) as [ps2|e2|] eqn:E2; cbn [rbind] in H.
      * rewrite (IH fuel' d2 (Return ps2)); [|lia|assumption|discriminate].
        assumption.
      * rewrite (IH fuel' d2 (Raise e2)); [|lia|assumption|discriminate].
        assumption.
      * congruence.
    + rewrite (IH fuel' d1 (Raise e1)); [|lia|assumption|discriminate].
      assumption.
    + congruence.
Qed.

(** An envelope too big whose two halves are below the limit
    gives the two halves. *)
Lemma generate_two_halves (data : Data) kvs evs fuel :
  json_loads (entry data) = Some (PDict kvs) ->
  dict_get kvs "logEvents" = Some (PList evs) ->
  fits data = false ->
  fits (sub_envelope (context data) kvs (firstn (half_of evs) evs)) = true ->
  fits (sub_envelope (context data) kvs (skipn (half_of evs) evs)) = true ->
  _generate_payloads (S fuel) data =
  Return [wire (sub_envelope (context data) kvs (firstn (half_of evs) evs));
          wire (sub_envelope (context data) kvs (skipn (half_of evs) evs))].
Proof.
  intros Hl Hg Hf H1 H2.
  rewrite (generate_splits _ _ Hf), (split_parsed _ _ _ Hl Hg).
  cbn [rbind fst snd]. rewrite (generate_fits _ _ H1), (generate_fits _ _ H2).
  reflexivity.
Qed.

(** Every payload returned passed the size test. *)
Lemma generate_below_limit fuel : forall data payloads,
  _generate_payloads fuel data = Return payloads ->
  Forall (fun p => Z.of_nat (List.length p) < MAX_PAYLOAD_SIZE) payloads.
Proof.
  induction fuel as [|fuel IH]; intros data payloads H.
  - destruct (fits data) eqn:Hf.
    + rewrite (generate_fits _ _ Hf) in H. injection H as <-.
      constructor; [|constructor]. now apply Z.ltb_lt.
    + now rewrite (generate_no_fuel _ Hf) in H.
  - destruct (fits data) eqn:Hf.
    + rewrite (generate_fits _ _ Hf) in H. injection H as <-.
      constructor; [|constructor]. now apply Z.ltb_lt.
    + rewrite (generate_splits _ _ Hf) in H.
      destruct (_split data) as [[d1 d2]| |]; try discriminate.
      cbn [rbind fst snd] in H.
      destruct (_generate_payloads fuel d1) as [ps1| |] eqn:E1; try discriminate.
      destruct (_generate_payloads fuel d2) as [ps2| |] eqn:E2; try discriminate.
      cbn [rbind] in H. injection H as <-.
      apply Forall_app. split; eauto.
Qed.

(** *** The events a payload carries *)

Lemma carried_wire data kvs evs :
  pyval_wf (context data) = true ->
  json_loads (entry data) = Some (PDict kvs) ->
  dict_get kvs "logEvents" = Some (PList evs) ->
  carried (wire data) = Some evs.
Proof.
  intros Hc Hl Hg. unfold carried, wire, encode.
  rewrite decompress_compress, string_of_list_byte_of_string.
  rewrite loads_dumps.
  - cbn [pyval_of_data dict_get]. simpl String.eqb. cbn iota. now rewrite Hl, Hg.
  - cbn. now rewrite Hc.
Qed.

Lemma carried_events_app ps qs a b :
  carried_events ps = Some a -> carried_events qs = Some b ->
  carried_events (ps ++ qs) = Some (a ++ b)%list.
Proof.
  revert a. induction ps as [|p ps IH]; intros a Ha Hb; simpl in *.
  - injection Ha as <-. assumption.
  - destruct (carried p) as [e|]; [|discriminate].
    destruct (carried_events ps) as [m|]; [|discriminate].
    injection Ha as <-. rewrite (IH m eq_refl Hb). now rewrite app_assoc.
Qed.

Section Segments.
Variables (ctx : pyval) (kvs : list (string * pyval)).
Hypothesis ctx_wf : pyval_wf ctx = true.
Hypothesis kvs_wf : pyval_wf (PDict kvs) = true.

(** The payloads of a sub-envelope carry its events, in order. *)
Lemma generate_sub_events fuel : forall seg payloads,
  forallb pyval_wf seg = true ->
  _generate_payloads fuel (sub_envelope ctx kvs seg) = Return payloads ->
  carried_events payloads = Some seg.
Proof.
  assert (Hleaf : forall seg, forallb pyval_wf seg = true ->
            carried_events [wire (sub_envelope ctx kvs seg)] = Some seg).
  { intros seg Hs. cbn [carried_events].
    rewrite (carried_wire (sub_envelope ctx kvs seg) _ seg ctx_wf
               (sub_parse ctx kvs seg kvs_wf Hs) (dict_get_set _ _ _)).
    now rewrite app_nil_r. }
  induction fuel as [|fuel IH]; intros seg payloads Hs H;
    destruct (fits (sub_envelope ctx kvs seg)) eqn:Hf.
  - rewrite (generate_fits _ _ Hf) in H. injection H as <-. auto.
  - now rewrite (generate_no_fuel _ Hf) in H.
  - rewrite (generate_fits _ _ Hf) in H. injection H as <-. auto.
  - rewrite (generate_splits _ _ Hf), (split_sub _ _ _ kvs_wf Hs) in H.
    cbn [rbind fst snd] in H.
    destruct (_generate_payloads fuel
                (sub_envelope ctx kvs (firstn (half_of seg) seg)))
      as [ps1| |] eqn:E1; try discriminate.
    cbn [rbind] in H.
    destruct (_generate_payloads fuel
                (sub_envelope ctx kvs (skipn (half_of seg) seg)))
      as [ps2| |] eqn:E2; try discriminate.
    cbn [rbind] in H. injection H as <-.
    replace (Some seg)
      with (Some (firstn (half_of seg) seg ++ skipn (half_of seg) seg)%list)
      by now rewrite firstn_skipn.
    apply carried_events_app.
    + eapply IH; [|exact E1]. now apply forallb_firstn.
    + eapply IH; [|exact E2]. now apply forallb_skipn.
Qed.

(** Splitting a sub-envelope never raises. *)
Lemma generate_sub_no_raise fuel : forall seg e,
  forallb pyval_wf seg = true ->
  _generate_payloads fuel (sub_envelope ctx kvs seg) <> Raise e.
Proof.
  induction fuel as [|fuel IH]; intros seg e Hs;
    destruct (fits (sub_envelope ctx kvs seg)) eqn:Hf.
  - now rewrite (generate_fits _ _ Hf).
  - now rewrite (generate_no_fuel _ Hf).
  - now rewrite (generate_fits _ _ Hf).
  - rewrite (generate_splits _ _ Hf), (split_sub _ _ _ kvs_wf Hs).
    cbn [rbind fst snd].
    destruct (_generate_payloads fuel
                (sub_envelope ctx kvs (firstn (half_of seg) seg)))
      as [ps1|e1|] eqn:E1; cbn [rbind].
    + destruct (_generate_payloads fuel
                  (sub_envelope ctx kvs (skipn (half_of seg) seg)))
        as [ps2|e2|] eqn:E2; cbn [rbind]; try discriminate.
      intros [= ->]. revert E2. apply IH. now apply forallb_skipn.
    + intros [= ->]. revert E1. apply IH. now apply forallb_firstn.
    + discriminate.
Qed.

(** A sub-envelope of at most one event that is still too big is
    split into itself again: the recursion never ends. *)
Lemma generate_sub_unbounded seg :
  forallb pyval_wf seg = true ->
  (List.length seg <= 1)%nat ->
  fits (sub_envelope ctx kvs seg) = false ->
  forall fuel, _generate_payloads fuel (sub_envelope ctx kvs seg) = OutOfFuel.
Proof.
  intros Hs Hlen Hf fuel. induction fuel as [|fuel IH].
  - now apply generate_no_fuel.
  - rewrite (generate_splits _ _ Hf), (split_sub _ _ _ kvs_wf Hs).
    assert (Hh : half_of seg = 0%nat).
    { unfold half_of. apply Nat.div_small. lia. }
    rewrite Hh. cbn [firstn skipn rbind fst snd].
    destruct (_generate_payloads fuel (sub_envelope ctx kvs [])) as [ps1|e1|] eqn:E1;
      cbn [rbind].
    + now rewrite IH.
    + exfalso. revert E1. now apply generate_sub_no_raise.
    + reflexivity.
Qed.

(** With every sub-envelope of at most one event below the limit,
    fuel [length seg] is enough. *)
Lemma generate_sub_terminates n : forall seg,
  forallb pyval_wf seg = true ->
  (List.length seg <= n)%nat ->
  (forall s, (List.length s <= 1)%nat -> incl s seg ->
             fits (sub_envelope ctx kvs s) = true) ->
  exists payloads,
    _generate_payloads n (sub_envelope ctx kvs seg) = Return payloads.
Proof.
  induction n as [|n IH]; intros seg Hs Hlen Hsmall;
    destruct (fits (sub_envelope ctx kvs seg)) eqn:Hf.
  - rewrite (generate_fits _ _ Hf). eauto.
  - rewrite Hsmall in Hf; [discriminate | lia | apply incl_refl].
  - rewrite (generate_fits _ _ Hf). eauto.
  - assert (Hlen2 : (2 <= List.length seg)%nat).
    { destruct (le_lt_dec 2 (List.length seg)); [assumption|].
      rewrite Hsmall in Hf; [discriminate | lia | apply incl_refl]. }
    assert (Hh : (1 <= half_of seg /\ half_of seg < List.length seg)%nat).
    { unfold half_of. split.
      - apply Nat.div_le_lower_bound; lia.
      - apply Nat.div_lt; lia. }
    assert (Hin1 : incl (firstn (half_of seg) seg) seg).
    { intros x Hx. rewrite <- (firstn_skipn (half_of seg) seg).
      apply in_or_app. now left. }
    assert (Hin2 : incl (skipn (half_of seg) seg) seg).
    { intros x Hx. rewrite <- (firstn_skipn (half_of seg) seg).
      apply in_or_app. now right. }
    rewrite (generate_splits _ _ Hf), (split_sub _ _ _ kvs_wf Hs).
    cbn [rbind fst snd].
    destruct (IH (firstn (half_of seg) seg)) as [ps1 ->].
    { now apply forallb_firstn. }
    { rewrite length_firstn. lia. }
    { intros s H1 H2. apply Hsmall; [assumption|]. eapply incl_tran; eauto. }
    destruct (IH (skipn (half_of seg) seg)) as [ps2 ->].
    { now apply forallb_skipn. }
    { rewrite length_skipn. lia. }
    { intros s H1 H2. apply Hsmall; [assumption|]. eapply incl_tran; eauto. }
    cbn [rbind]. eauto.
Qed.
End Segments.

(** *** The splitter on an envelope *)

Lemma parsed_events_wf text kvs evs :
  json_loads text = Some (PDict kvs) ->
  dict_get kvs "logEvents" = Some (PList evs) ->
  pyval_wf (PDict kvs) = true /\ forallb pyval_wf evs = true.
Proof.
  intros Hl Hg. pose proof (loads_wf _ _ Hl) as Hk. split; [assumption|].
  exact (dict_get_wf _ _ _ Hk Hg).
Qed.

(** C8. An envelope whose compressed serialization is below
    MAX_PAYLOAD_SIZE gives exactly one payload, the direct
    serialization gzip.compress(json.dumps(data).encode()). *)
Theorem small_envelope_single_payload (data : Data) (fuel : nat) :
  Z.of_nat (List.length (gzip_compress (encode (json_dumps (pyval_of_data data)))))
    < MAX_PAYLOAD_SIZE ->
  _generate_payloads fuel data =
  Return [gzip_compress (encode (json_dumps (pyval_of_data data)))].
Proof.
  intros H. apply generate_fits. unfold fits, wire. now apply Z.ltb_lt.
Qed.

(** Whatever [_generate_payloads] returns carries the events of
    the envelope. *)
Lemma generate_events (data : Data) kvs evs fuel payloads :
  pyval_wf (context data) = true ->
  json_loads (entry data) = Some (PDict kvs) ->
  dict_get kvs "logEvents" = Some (PList evs) ->
  _generate_payloads fuel data = Return payloads ->
  carried_events payloads = Some evs.
Proof.
  intros Hc Hl Hg H. destruct (parsed_events_wf _ _ _ Hl Hg) as [Hk He].
  destruct (fits data) eqn:Hf.
  - rewrite (generate_fits _ _ Hf) in H. injection H as <-.
    cbn [carried_events]. rewrite (carried_wire data kvs evs Hc Hl Hg).
    now rewrite app_nil_r.
  - destruct fuel as [|fuel]; [now rewrite (generate_no_fuel _ Hf) in H|].
    rewrite (generate_splits _ _ Hf), (split_parsed _ _ _ Hl Hg) in H.
    cbn [rbind fst snd] in H.
    destruct (_generate_payloads fuel
                (sub_envelope (context data) kvs (firstn (half_of evs) evs)))
      as [ps1| |] eqn:E1; try discriminate.
    cbn [rbind] in H.
    destruct (_generate_payloads fuel
                (sub_envelope (context data) kvs (skipn (half_of evs) evs)))
      as [ps2| |] eqn:E2; try discriminate.
    cbn [rbind] in H. injection H as <-.
    replace (Some evs)
      with (Some (firstn (half_of evs) evs ++ skipn (half_of evs) evs)%list)
      by now rewrite firstn_skipn.
    apply carried_events_app.
    + exact (generate_sub_events (context data) kvs Hc Hk fuel _ _
               (forallb_firstn _ _ _ He) E1).
    + exact (generate_sub_events (context data) kvs Hc Hk fuel _ _
               (forallb_skipn _ _ _ He) E2).
Qed.

(** With every sub-envelope of at most one event below the limit,
    [_generate_payloads] returns. *)
Lemma generate_returns (data : Data) kvs evs :
  json_loads (entry data) = Some (PDict kvs) ->
  dict_get kvs "logEvents" = Some (PList evs) ->
  (forall s, (List.length s <= 1)%nat -> incl s evs ->
             fits (sub_envelope (context data) kvs s) = true) ->
  exists fuel payloads, _generate_payloads fuel data = Return payloads.
Proof.
  intros Hl Hg Hsmall. destruct (parsed_events_wf _ _ _ Hl Hg) as [Hk He].
  destruct (fits data) eqn:Hf.
  - exists 0%nat. rewrite (generate_fits _ _ Hf). eauto.
  - exists (S (List.length evs)).
    rewrite (generate_splits _ _ Hf), (split_parsed _ _ _ Hl Hg).
    cbn [rbind fst snd].
    destruct (generate_sub_terminates (context data) kvs Hk (List.length evs)
                (firstn (half_of evs) evs)) as [ps1 ->].
    { now apply forallb_firstn. }
    { rewrite length_firstn. lia. }
    { intros s H1 H2. apply Hsmall; [assumption|].
      intros x Hx. apply H2 in Hx. rewrite <- (firstn_skipn (half_of evs) evs).
      apply in_or_app. now left. }
    destruct (generate_sub_terminates (context data) kvs Hk (List.length evs)
                (skipn (half_of evs) evs)) as [ps2 ->].
    { now apply forallb_skipn. }
    { rewrite length_skipn. lia. }
    { intros s H1 H2. apply Hsmall; [assumption|].
      intros x Hx. apply H2 in Hx. rewrite <- (firstn_skipn (half_of evs) evs).
      apply in_or_app. now right. }
    cbn [rbind]. eauto.
Qed.

(** C3. For an envelope whose entry parses as JSON with a logEvents
    list, the payloads [_generate_payloads] returns carry, in output
    order, exactly the original events; and when every sub-envelope
    of at most one event is below the limit, it does return. *)
Theorem split_preserves_events (data : Data) kvs evs :
  pyval_wf (context data) = true ->
  json_loads (entry data) = Some (PDict kvs) ->
  dict_get kvs "logEvents" = Some (PList evs) ->
  (forall fuel payloads,
     _generate_payloads fuel data = Return payloads ->
     carried_events payloads = Some evs) /\
  ((forall s, (List.length s <= 1)%nat -> incl s evs ->
              fits (sub_envelope (context data) kvs s) = true) ->
   exists fuel payloads,
     _generate_payloads fuel data = Return payloads /\
     carried_events payloads = Some evs).
Proof.
  intros Hc Hl Hg. split.
  - intros fuel payloads. now apply generate_events with (kvs := kvs).
  - intros Hsmall.
    destruct (generate_returns data kvs evs Hl Hg Hsmall) as (fuel & payloads & H).
    exists fuel, payloads. split; [assumption|].
    now apply generate_events with (data := data) (kvs := kvs) (fuel := fuel).
Qed.

(** C1 (the code departs from it).  An envelope that is too big and
    whose logEvents list has at most one element, the re-serialized
    envelope being too big as well, is split into an empty half and
    itself: [_generate_payloads] recurses on the same envelope
    whatever the depth allowed, returning no payload and raising no
    error of its own. *)
Theorem single_oversized_event_recursion_unbounded (data : Data) kvs evs :
  json_loads (entry data) = Some (PDict kvs) ->
  dict_get kvs "logEvents" = Some (PList evs) ->
  (List.length evs <= 1)%nat ->
  fits data = false ->
  fits (sub_envelope (context data) kvs evs) = false ->
  forall fuel, _generate_payloads fuel data = OutOfFuel.
Proof.
  intros Hl Hg Hlen Hf Hfsub fuel.
  destruct (parsed_events_wf _ _ _ Hl Hg) as [Hk He].
  destruct fuel as [|fuel]; [now apply generate_no_fuel|].
  rewrite (generate_splits _ _ Hf), (split_parsed _ _ _ Hl Hg).
  assert (Hh : half_of evs = 0%nat).
  { unfold half_of. apply Nat.div_small. lia. }
  rewrite Hh. cbn [firstn skipn rbind fst snd].
  destruct (_generate_payloads fuel (sub_envelope (context data) kvs []))
    as [ps1|e1|] eqn:E1; cbn [rbind].
  - now rewrite (generate_sub_unbounded (context data) kvs Hk evs He Hlen Hfsub).
  - exfalso. revert E1. now apply generate_sub_no_raise.
  - reflexivity.
Qed.

(** When every sub-envelope of at most one event is below the
    limit, splitting ends, and every payload is below the limit. *)
Lemma generate_payloads_terminates (data : Data) kvs evs :
  pyval_wf (context data) = true ->
  json_loads (entry data) = Some (PDict kvs) ->
  dict_get kvs "logEvents" = Some (PList evs) ->
  (forall s, (List.length s <= 1)%nat -> incl s evs ->
             fits (sub_envelope (context data) kvs s) = true) ->
  exists fuel payloads,
    _generate_payloads fuel data = Return payloads /\
    Forall (fun p => Z.of_nat (List.length p) < MAX_PAYLOAD_SIZE) payloads.
Proof.
  intros Hc Hl Hg Hsmall.
  destruct (generate_returns data kvs evs Hl Hg Hsmall) as (fuel & payloads & H).
  exists fuel, payloads. split; [assumption|].
  eapply generate_below_limit; eauto.
Qed.
End SplitterProofs.

(** ** Entries that cannot be split *)

Lemma split_raises {codec : Codec} (data : Data) e :
  split_error (entry data) = Some e -> _split data = Raise e.
Proof.
  unfold split_error, _split.
  destruct (json_loads (entry data)) as [v|]; [|now intros [= <-]].
  destruct v; try (now intros [= <-]).
  cbn [rbind getitem_str].
  destruct (dict_get kvs "logEvents") as [v|]; [|now intros [= <-]].
  destruct v; try discriminate; try (now intros [= <-]).
Qed.

Lemma split_error_not_bad_request {codec : Codec} text e :
  split_error text = Some e -> is_BadRequest e = false.
Proof.
  unfold split_error.
  destruct (json_loads text) as [v|]; [|now intros [= <-]].
  destruct v; try (now intros [= <-]).
  destruct (dict_get kvs "logEvents") as [v|]; [|now intros [= <-]].
  destruct v; try discriminate; now intros [= <-].
Qed.

Lemma send_unsplittable {codec : Codec}
    (fuel : nat) (log_entry : string) (ctx : LambdaContext) (w : World) (e : exn) :
  fits (envelope log_entry ctx) = false ->
  split_error log_entry = Some e ->
  _send_log_entry (S fuel) log_entry ctx w = (Raise e, w).
Proof.
  intros Hf He. unfold _send_log_entry, bind, lift. fold (envelope log_entry ctx).
  cbn [_generate_payloads]. unfold fits, wire in Hf. rewrite Hf.
  now rewrite (split_raises (envelope log_entry ctx) e He).
Qed.

(** C5, as the code has it.  For an envelope that has to be split and
    whose entry is not JSON, or is JSON but not a dict, or a dict
    without logEvents, or whose logEvents is neither a list nor a
    string, [_split] raises JSONDecodeError, TypeError or KeyError.
    The exception is not a BadRequestException; [_send_log_entry] does
    not catch it: it leaves the dispatcher with nothing printed and no
    request made. *)
Theorem unsplittable_entry_escapes {codec : Codec}
    (fuel : nat) (log_entry : string) (ctx : LambdaContext) (w : World) (e : exn) :
  fits (envelope log_entry ctx) = false ->
  split_error log_entry = Some e ->
  _generate_payloads (S fuel) (envelope log_entry ctx) = Raise e /\
  is_BadRequest e = false /\
  _send_log_entry (S fuel) log_entry ctx w = (Raise e, w).
Proof.
  intros Hf He.
  assert (Hgen : _generate_payloads (S fuel) (envelope log_entry ctx) = Raise e).
  { cbn [_generate_payloads]. unfold fits, wire in Hf. rewrite Hf.
    now rewrite (split_raises (envelope log_entry ctx) e He). }
  repeat split.
  - exact Hgen.
  - exact (split_error_not_bad_request _ _ He).
  - unfold _send_log_entry, bind, lift. fold (envelope log_entry ctx).
    now rewrite Hgen.
Qed.

(** ** The trigger type *)

(** C10. An event dict without the key awslogs whose Records is the
    empty list makes [_get_log_type] raise IndexError, and so does
    [lambda_handler], before anything is printed or sent. *)
Theorem empty_records_raise_index_error {codec : Codec}
    (fuel : nat) (kvs : list (string * pyval)) (ctx : LambdaContext) (w : World) :
  dict_get kvs "awslogs" = None ->
  dict_get kvs "Records" = Some (PList []) ->
  _get_log_type (PDict kvs) = Raise IndexError /\
  lambda_handler fuel (PDict kvs) ctx w = (Raise IndexError, w).
Proof.
  intros Ha Hr.
  assert (H : _get_log_type (PDict kvs) = Raise IndexError).
  { unfold _get_log_type. cbn [py_in rbind getitem_str]. rewrite Ha, Hr. reflexivity. }
  split; [exact H|].
  unfold lambda_handler, bind, lift. now rewrite H.
Qed.

(** ** The reference codec satisfies the laws *)

Module RefCodecFacts.
Import RefCodec.

Lemma dec_enc_pos p rest : dec_pos (enc_pos p rest) = Some (p, rest).
Proof. induction p; simpl; now rewrite ?IHp. Qed.

Lemma dec_enc_Z z rest : dec_Z (enc_Z z rest) = Some (z, rest).
Proof. destruct z; simpl; now rewrite ?dec_enc_pos. Qed.

Lemma dec_enc_str s rest : dec_str (enc_str s rest) = Some (s, rest).
Proof. induction s; simpl; now rewrite ?IHs. Qed.

Lemma length_enc_pos p rest : (String.length rest < String.length (enc_pos p rest))%nat.
Proof. induction p; simpl; lia. Qed.

Lemma length_enc_Z z rest : (String.length rest < String.length (enc_Z z rest))%nat.
Proof. destruct z; simpl; try pose proof (length_enc_pos p rest); lia. Qed.

Lemma length_enc_str s rest : (String.length rest < String.length (enc_str s rest))%nat.
Proof. induction s; simpl; lia. Qed.

Lemma need_list_cons x l : need_list (x :: l) = (S (need x) + need_list l)%nat.
Proof. unfold need_list. simpl. lia. Qed.

Lemma need_dict_cons kv kvs :
  need_dict (kv :: kvs) = (S (need (snd kv)) + need_dict kvs)%nat.
Proof. unfold need_dict. simpl. lia. Qed.

Lemma dec_enc v : forall fuel rest,
  (need v <= fuel)%nat -> dec fuel (enc v rest) = Some (v, rest).
Proof.
  induction v as [| b | n | m e | s | l IH | kvs IH] using pyval_induction;
    intros fuel rest Hfuel; (destruct fuel as [|fuel]; [simpl in Hfuel; lia|]).
  - reflexivity.
  - now destruct b.
  - cbn [enc dec]. now rewrite dec_enc_Z.
  - cbn [enc dec]. now rewrite !dec_enc_Z.
  - cbn [enc dec]. now rewrite dec_enc_str.
  - change (enc (PList l) rest) with (String "[" (enc_list l rest)).
    cbn [dec].
    assert (H : dec_list fuel (enc_list l rest) = Some (l, rest)).
    { change (need (PList l)) with (S (need_list l)) in Hfuel.
      assert (Hf : (need_list l <= fuel)%nat) by lia. clear Hfuel.
      revert fuel Hf. induction IH as [|x l Hx _ IHl]; intros fuel Hf.
      - destruct fuel; [unfold need_list in Hf; simpl in Hf; lia | reflexivity].
      - destruct fuel as [|fuel]; [unfold need_list in Hf; simpl in Hf; lia|].
        change (enc_list (x :: l) rest) with (String "," (enc x (enc_list l rest))).
        cbn [dec_list]. unfold need_list in Hf, IHl. simpl in Hf.
        rewrite Hx by lia. rewrite IHl by lia. reflexivity. }
    now rewrite H.
  - change (enc (PDict kvs) rest) with (String "{" (enc_dict kvs rest)).
    cbn [dec].
    assert (H : dec_dict fuel (enc_dict kvs rest) = Some (kvs, rest)).
    { change (need (PDict kvs)) with (S (need_dict kvs)) in Hfuel.
      assert (Hf : (need_dict kvs <= fuel)%nat) by lia. clear Hfuel.
      revert fuel Hf. induction IH as [|[k x] kvs Hx _ IHl]; intros fuel Hf.
      - destruct fuel; [unfold need_dict in Hf; simpl in Hf; lia | reflexivity].
      - destruct fuel as [|fuel]; [unfold need_dict in Hf; simpl in Hf; lia|].
        change (enc_dict ((k, x) :: kvs) rest)
          with (String "," (enc_str k (enc x (enc_dict kvs rest)))).
        cbn [dec_dict]. unfold need_dict in Hf, IHl. simpl in Hf, Hx.
        rewrite dec_enc_str. rewrite Hx by lia. rewrite IHl by lia. reflexivity. }
    now rewrite H.
Qed.

Lemma length_String c s : String.length (String c s) = S (String.length s).
Proof. reflexivity. Qed.

Lemma length_enc v : forall rest,
  (need v + String.length rest <= String.length (enc v rest))%nat.
Proof.
  induction v as [| b | n | m e | s | l IH | kvs IH] using pyval_induction;
    intros rest.
  - simpl. lia.
  - destruct b; simpl; lia.
  - change (enc (PInt n) rest) with (String "i" (enc_Z n rest)).
    rewrite length_String. change (need (PInt n)) with 1%nat.
    pose proof (length_enc_Z n rest). lia.
  - change (enc (PFloat m e) rest) with (String "d" (enc_Z m (enc_Z e rest))).
    rewrite length_String. change (need (PFloat m e)) with 1%nat.
    pose proof (length_enc_Z e rest).
    pose proof (length_enc_Z m (enc_Z e rest)). lia.
  - change (enc (PStr s) rest) with (String "s" (enc_str s rest)).
    rewrite length_String. change (need (PStr s)) with 1%nat.
    pose proof (length_enc_str s rest). lia.
  - change (enc (PList l) rest) with (String "[" (enc_list l rest)).
    change (need (PList l)) with (S (need_list l)). rewrite length_String.
    enough (need_list l + String.length rest <= String.length (enc_list l rest))%nat
      by lia.
    induction IH as [|x l Hx _ IHl].
    + change (enc_list [] rest) with (String "]" rest). rewrite length_String.
      change (need_list []) with 1%nat. lia.
    + change (enc_list (x :: l) rest) with (String "," (enc x (enc_list l rest))).
      rewrite need_list_cons, length_String.
      specialize (Hx (enc_list l rest)). lia.
  - change (enc (PDict kvs) rest) with (String "{" (enc_dict kvs rest)).
    change (need (PDict kvs)) with (S (need_dict kvs)). rewrite length_String.
    enough (need_dict kvs + String.length rest
            <= String.length (enc_dict kvs rest))%nat by lia.
    induction IH as [|[k x] kvs Hx _ IHl].
    + change (enc_dict [] rest) with (String "}" rest). rewrite length_String.
      change (need_dict []) with 1%nat. lia.
    + change (enc_dict ((k, x) :: kvs) rest)
        with (String "," (enc_str k (enc x (enc_dict kvs rest)))).
      rewrite need_dict_cons, length_String.
      change (snd (k, x)) with x in *. specialize (Hx (enc_dict kvs rest)).
      pose proof (length_enc_str k (enc x (enc_dict kvs rest))). lia.
Qed.

Lemma ref_loads_dumps v : pyval_wf v = true -> loads (dumps v) = Some v.
Proof.
  intros Hwf. unfold loads, dumps.
  rewrite dec_enc; [now rewrite Hwf|].
  pose proof (length_enc v EmptyString). lia.
Qed.

Lemma ref_loads_wf s v : loads s = Some v -> pyval_wf v = true.
Proof.
  unfold loads. destruct (dec _ s) as [[v' [|c r]]|]; try discriminate.
  destruct (pyval_wf v') eqn:E; [|discriminate]. now intros [= <-].
Qed.

Lemma ref_codec_laws : CodecLaws codec.
Proof.
  constructor.
  - exact ref_loads_dumps.
  - exact ref_loads_wf.
  - reflexivity.
Qed.
End RefCodecFacts.

(** ** The model on concrete inputs *)

Section Runs.
Import Examples.
#[local] Existing Instance RefCodec.codec.

Lemma retry_budget_and_backoff_witness :
  let w1 := world always_503 no_env in
  let w2 := world timeout_twice_then_200 no_env in
  let req := request_to "https://cloud-collector.newrelic.com/aws/v1" [] in
  (exists w',
     http_retryable (do_request OTHER []) w1 = (Raise MaxRetriesException, w') /\
     attempts w1 w' = 3 /\ slept w' = [1; 2] /\
     timeline w' = [Called req; Slept 1; Called req; Slept 2; Called req]) /\
  (exists w',
     http_retryable (do_request OTHER []) w2 = (Return (mkResponse 200), w') /\
     attempts w2 w' = 3 /\ slept w' = [1; 2] /\
     timeline w' = [Called req; Slept 1; Called req; Slept 2; Called req]).
Proof.
  intros w1 w2 req. split.
  - destruct (proj1 (retry_budget_and_backoff OTHER [] w1 _ eq_refl eq_refl))
      as (w' & H1 & H2 & H3 & H4 & H5).
    + intros i Hi. reflexivity.
    + exists w'. split; [exact H1|]. split; [exact H2|]. split; [exact H3|exact H5].
  - destruct (proj2 (retry_budget_and_backoff OTHER [] w2 _ eq_refl eq_refl) 3%nat 200)
      as (w' & H1 & H2 & H3 & H4 & H5).
    + lia.
    + intros [|[|i]] Hi; [reflexivity | reflexivity | simpl in Hi; lia].
    + reflexivity.
    + exists w'. split; [exact H1|]. split; [exact H2|]. split; [exact H3|exact H4].
Defined.

Lemma transport_classifies_replies_witness :
  let w1 := world forbidden_then_200 no_env in
  let w2 := world throttled_then_200 no_env in
  let req := request_to "https://cloud-collector.newrelic.com/aws/v1" [] in
  (exists w' text,
     http_retryable (do_request OTHER []) w1 = (Raise (BadRequestException text), w') /\
     attempts w1 w' = 1 /\ slept w' = [] /\ timeline w' = [Called req]) /\
  (exists w' text,
     http_retryable (do_request OTHER []) w2 = (Raise (ThrottlingException text), w') /\
     attempts w2 w' = 1 /\ slept w' = [] /\ timeline w' = [Called req]).
Proof.
  intros w1 w2 req. split.
  - destruct (proj1 (transport_classifies_replies OTHER [] w1 _ eq_refl eq_refl)
                0%nat 403 "Forbidden")
      as (w' & text & H1 & H2 & H3 & H4 & H5 & H6).
    + lia.
    + intros i Hi. lia.
    + reflexivity.
    + reflexivity.
    + exists w', text. split; [exact H1|]. split; [exact H2|].
      split; [exact (H4 eq_refl)|exact (H6 eq_refl)].
  - destruct (proj1 (proj2 (transport_classifies_replies OTHER [] w2 _ eq_refl eq_refl))
                0%nat "Too Many Requests")
      as (w' & text & H1 & H2 & H3 & H4).
    + lia.
    + intros i Hi. lia.
    + reflexivity.
    + exists w', text. split; [exact H1|]. split; [exact H2|].
      split; [exact H3|exact H4].
Defined.

Example forbidden_on_first_attempt :
  let run := http_retryable (do_request OTHER []) (world forbidden_then_200 no_env) in
  fst run = Raise (BadRequestException "HTTP Error 403: Forbidden. Review your license key")
  /\ slept (snd run) = [] /\ List.length (sent (snd run)) = 1%nat.
Proof. vm_compute. repeat split. Qed.

Example two_timeouts_then_success :
  let run := http_retryable (do_request OTHER []) (world timeout_twice_then_200 no_env) in
  fst run = Return (mkResponse 200)
  /\ slept (snd run) = [1; 2] /\ List.length (sent (snd run)) = 3%nat.
Proof. vm_compute. repeat split. Qed.

(** *** Envelopes of the examples *)

Lemma small_parses : json_loads small_entry = Some (PDict small_kvs).
Proof. apply RefCodecFacts.ref_loads_dumps. reflexivity. Qed.

Lemma two_parses : json_loads two_entry = Some (PDict two_kvs).
Proof. apply RefCodecFacts.ref_loads_dumps. vm_compute. reflexivity. Qed.

Lemma big_parses : json_loads big_entry = Some (PDict big_kvs).
Proof. apply RefCodecFacts.ref_loads_dumps. vm_compute. reflexivity. Qed.

Lemma two_too_big : fits (envelope two_entry ctx0) = false.
Proof. vm_compute. reflexivity. Qed.

Lemma two_first_fits :
  fits (sub_envelope (context (envelope two_entry ctx0)) two_kvs [event_a]) = true.
Proof. vm_compute. reflexivity. Qed.

Lemma two_second_fits :
  fits (sub_envelope (context (envelope two_entry ctx0)) two_kvs [event_b]) = true.
Proof. vm_compute. reflexivity. Qed.

Lemma two_sub_fits s :
  (List.length s <= 1)%nat -> incl s [event_a; event_b] ->
  fits (sub_envelope (context (envelope two_entry ctx0)) two_kvs s) = true.
Proof.
  intros Hlen Hin. destruct s as [|x [|y s]]; [| |cbn [List.length] in Hlen; lia].
  - vm_compute. reflexivity.
  - assert (Hx : In x [x]) by (left; reflexivity).
    apply Hin in Hx. clear Hin. destruct Hx as [Hx|Hx].
    + rewrite <- Hx. exact two_first_fits.
    + destruct Hx as [Hx|Hx]; [|destruct Hx].
      rewrite <- Hx. exact two_second_fits.
Qed.

Lemma two_payloads :
  _generate_payloads 1 (envelope two_entry ctx0) =
  Return [wire (sub_envelope (context (envelope two_entry ctx0)) two_kvs [event_a]);
          wire (sub_envelope (context (envelope two_entry ctx0)) two_kvs [event_b])].
Proof.
  exact (generate_two_halves (envelope two_entry ctx0) two_kvs [event_a; event_b] 0
           two_parses eq_refl two_too_big two_first_fits two_second_fits).
Qed.

Lemma split_preserves_events_witness :
  exists fuel payloads,
    _generate_payloads fuel (envelope two_entry ctx0) = Return payloads /\
    carried_events payloads = Some [event_a; event_b].
Proof.
  apply (proj2 (split_preserves_events (laws := RefCodecFacts.ref_codec_laws)
                  (envelope two_entry ctx0) two_kvs [event_a; event_b]
                  eq_refl two_parses eq_refl)).
  exact two_sub_fits.
Defined.

Lemma single_oversized_event_recursion_unbounded_witness :
  _generate_payloads 1000 (envelope big_entry ctx0) = OutOfFuel.
Proof.
  apply (single_oversized_event_recursion_unbounded (laws := RefCodecFacts.ref_codec_laws)
           (envelope big_entry ctx0) big_kvs [event_big]).
  - exact big_parses.
  - reflexivity.
  - cbn [List.length]. lia.
  - vm_compute. reflexivity.
  - vm_compute. reflexivity.
Defined.

Lemma small_envelope_single_payload_witness :
  _generate_payloads 0 (envelope small_entry ctx0) =
  Return [gzip_compress (encode (json_dumps (pyval_of_data (envelope small_entry ctx0))))].
Proof.
  apply small_envelope_single_payload. vm_compute. reflexivity.
Defined.

Lemma noise_too_big : fits (envelope noise_entry ctx0) = false.
Proof. vm_compute. reflexivity. Qed.

Lemma noise_not_json : json_loads noise_entry = None.
Proof. vm_compute. reflexivity. Qed.

Lemma noise_split_error : split_error noise_entry = Some JSONDecodeError.
Proof. unfold split_error. now rewrite noise_not_json. Qed.

Lemma unsplittable_entry_escapes_witness :
  _generate_payloads 1 (envelope noise_entry ctx0) = Raise JSONDecodeError /\
  is_BadRequest JSONDecodeError = false /\
  _send_log_entry 1 noise_entry ctx0 (world always_200 no_env)
  = (Raise JSONDecodeError, world always_200 no_env).
Proof.
  exact (unsplittable_entry_escapes 0 noise_entry ctx0 (world always_200 no_env)
           JSONDecodeError noise_too_big noise_split_error).
Defined.

(** C5 as the spec states it fails here: the entry cannot be parsed
    and the envelope has to be split (its text does not compress below
    the limit), and the dispatcher is left by an exception that is not
    of the BadRequest family, with nothing printed. *)
Lemma unparseable_entry_not_bad_request :
  fits (envelope noise_entry ctx0) = false /\
  json_loads noise_entry = None /\
  ~ (forall e w',
       _send_log_entry 1 noise_entry ctx0 (world always_200 no_env) = (Raise e, w') ->
       is_BadRequest e = true) /\
  stdout (snd (_send_log_entry 1 noise_entry ctx0 (world always_200 no_env))) = [].
Proof.
  pose proof (send_unsplittable 0 noise_entry ctx0 (world always_200 no_env)
                JSONDecodeError noise_too_big noise_split_error) as Hrun.
  split; [exact noise_too_big|]. split; [exact noise_not_json|]. split.
  - intros H. specialize (H _ _ Hrun). discriminate.
  - rewrite Hrun. reflexivity.
Qed.

Lemma dispatcher_partial_failure_witness :
  let w := world forbidden_then_200 no_env in
  let p1 := wire (sub_envelope (context (envelope two_entry ctx0)) two_kvs [event_a]) in
  let p2 := wire (sub_envelope (context (envelope two_entry ctx0)) two_kvs [event_b]) in
  let text := "HTTP Error 403: Forbidden. Review your license key" in
  _send_log_entry 1 two_entry ctx0 w =
  for_each [p2] (fun payload => _send_payload (_get_entry_type two_entry) payload)
    (snd (print text
            (snd (http_retryable (do_request (_get_entry_type two_entry) p1) w)))).
Proof.
  intros w p1 p2 text.
  refine (proj2 (proj1 (dispatcher_partial_failure 1 two_entry ctx0 [] [p2] p1 w w
                          two_payloads eq_refl) text _)).
  vm_compute. reflexivity.
Defined.

Example partial_failure_run :
  let run := _send_log_entry 1 two_entry ctx0 (world forbidden_then_200 no_env) in
  fst run = Return tt /\
  List.length (sent (snd run)) = 2%nat /\
  stdout (snd run) = ["HTTP Error 403: Forbidden. Review your license key";
                      "Log entry sent. Response code: 200"].
Proof. vm_compute. repeat split. Qed.

Example max_retries_run :
  let run := _send_log_entry 1 two_entry ctx0 (world always_503 no_env) in
  fst run = Raise MaxRetriesException /\
  List.length (sent (snd run)) = 3%nat /\
  slept (snd run) = [1; 2] /\
  stdout (snd run) = ["Retrying in 1 seconds"; "Retrying in 2 seconds";
                      "Retry limit reached. Failed to send log entry."].
Proof. vm_compute. repeat split. Qed.

Lemma empty_records_raise_index_error_witness :
  _get_log_type (PDict [("Records", PList [])]) = Raise IndexError /\
  lambda_handler 0 (PDict [("Records", PList [])]) ctx0 (world always_200 no_env)
  = (Raise IndexError, world always_200 no_env).
Proof. apply empty_records_raise_index_error; reflexivity. Defined.

(** C9 (the code departs from it).  With LICENSE_KEY set in the
    environment, the request goes to the host chosen from that key,
    but its X-License-Key header is the literal of [_get_license_key],
    not the configured key. *)
Theorem license_header_not_from_configuration :
  let w := world always_200 eu_env in
  let requests := sent (snd (_send_payload OTHER [] w)) in
  environ w "LICENSE_KEY" = Some eu_license /\
  map req_url requests = ["https://cloud-collector.eu.newrelic.com/aws/v1"] /\
  map (fun r => header_get (req_headers r) "X-License-Key") requests
  = [Some "f7462ab48bc1fee992a5ab87c707a21b6b1ab893"] /\
  eu_license <> "f7462ab48bc1fee992a5ab87c707a21b6b1ab893".
Proof. vm_compute. repeat split. discriminate. Qed.
End Runs.

(** * Further properties *)

(** ** The transport, whatever the replies *)

Lemma decisive_reply et p url w j :
  _get_ingest_service_url et w = (Return url, w) ->
  url_accepted w url = true ->
  (j < 3)%nat ->
  (forall i, (i < j)%nat -> retryable (upcoming w i) = true) ->
  retryable (upcoming w j) = false ->
  exists r w',
    wrapper_func (do_request et p) w = (r, w') /\
    advances w w' (attempt_steps (request_to url p) (S j)) /\
    transport_outcome r = true /\
    r <> Raise MaxRetriesException.
Proof.
  intros Hurl Hacc Hj Hpre Hdec.
  pose proof (attempt_decides et p url w j Hurl Hacc Hj Hpre) as H.
  destruct (upcoming w j) as [code|code msg|reason|what]; simpl in Hdec.
  - destruct H as (w' & Hext & ->). eexists _, w'.
    split; [reflexivity|]. split; [assumption|]. split; [reflexivity|discriminate].
  - apply negb_false_iff in Hdec. rewrite Hdec in H.
    destruct H as (w' & text & Hext & ->). eexists _, w'.
    split; [reflexivity|]. split; [assumption|].
    destruct (code =? 429); split; [reflexivity|discriminate|reflexivity|discriminate].
  - discriminate.
  - destruct H as (w' & Hext & ->). eexists _, w'.
    split; [reflexivity|]. split; [assumption|]. split; [reflexivity|discriminate].
Qed.

(** A run of the transport for a URL that [request.Request] takes:
    [n] attempts, 1 <= [n] <= 3, and nothing but them. *)
Lemma transport_run et p url w :
  _get_ingest_service_url et w = (Return url, w) ->
  url_accepted w url = true ->
  exists n r w',
    http_retryable (do_request et p) w = (r, w') /\
    (1 <= n <= 3)%nat /\
    advances w w' (attempt_steps (request_to url p) n) /\
    transport_outcome r = true /\
    (r = Raise MaxRetriesException -> n = 3%nat).
Proof.
  intros Hurl Hacc. unfold http_retryable.
  assert (Hdec : forall j, (j < 3)%nat ->
            (forall i, (i < j)%nat -> retryable (upcoming w i) = true) ->
            retryable (upcoming w j) = false ->
            exists n r w',
              wrapper_func (do_request et p) w = (r, w') /\
              (1 <= n <= 3)%nat /\
              advances w w' (attempt_steps (request_to url p) n) /\
              transport_outcome r = true /\
              (r = Raise MaxRetriesException -> n = 3%nat)).
  { intros j Hj Hpre Hd.
    destruct (decisive_reply et p url w j Hurl Hacc Hj Hpre Hd)
      as (r & w' & Hrun & Hext & Hout & Hne).
    exists (S j), r, w'.
    split; [assumption|]. split; [lia|]. split; [assumption|].
    split; [assumption|]. intros ->. congruence. }
  destruct (retryable (upcoming w 0)) eqn:R0.
  2:{ apply (Hdec 0%nat); [lia | intros i Hi; lia | assumption]. }
  destruct (retryable (upcoming w 1)) eqn:R1.
  2:{ apply (Hdec 1%nat); [lia | | assumption].
      intros i Hi. replace i with 0%nat by lia. assumption. }
  destruct (retryable (upcoming w 2)) eqn:R2.
  2:{ apply (Hdec 2%nat); [lia | | assumption].
      intros [|[|i]] Hi; [assumption | assumption | lia]. }
  destruct (retry_prefix et p url w 3 Hurl Hacc) as (w3 & Hext & Hrun); [lia | |].
  { intros [|[|[|i]]] Hi; [assumption | assumption | assumption | lia]. }
  exists 3%nat, (Raise MaxRetriesException), w3.
  rewrite Hrun. change (Z.of_nat 3) with MAX_RETRIES.
  rewrite wrapper_loop_exhausted.
  split; [reflexivity|]. split; [lia|]. split; [assumption|].
  split; reflexivity.
Qed.

(** A run for a URL that [request.Request] does not take: the
    ValueError of the first attempt leaves the transport, which has
    done nothing. *)
Lemma transport_rejected et p url w :
  _get_ingest_service_url et w = (Return url, w) ->
  url_accepted w url = false ->
  http_retryable (do_request et p) w = (Raise (OtherError "ValueError"), w).
Proof.
  intros Hurl Hacc. unfold http_retryable, wrapper_func.
  change (Z.to_nat MAX_RETRIES) with 3%nat. cbn [wrapper_loop].
  change (0 <? MAX_RETRIES) with true. change (0 <? 0) with false. cbv iota.
  unfold bind at 1, ret at 1. unfold try_except_else.
  rewrite (do_request_rejected et p w url Hurl Hacc). reflexivity.
Qed.

(** X1. Whatever the service replies, the transport makes at most
    MAX_RETRIES = 3 calls of [urlopen].  With a URL that
    [request.Request] takes it makes at least one, and its calls and
    sleeps alternate, from the first call to the last: a sleep comes
    only between two calls, right before the later one, and the sleeps
    are the first backoffs, so never more than 1 then 2.  With a URL
    that [request.Request] does not take, the ValueError of the first
    attempt leaves the transport before any call or sleep. *)
Theorem transport_attempts_bounded (et : EntryType) (p : list byte) (w : World) :
  let run := http_retryable (do_request et p) w in
  let w' := snd run in
  0 <= attempts w w' <= MAX_RETRIES /\
  exists url,
    _get_ingest_service_url et w = (Return url, w) /\
    (url_accepted w url = true ->
     1 <= attempts w w' /\
     timeline w' =
     (timeline w ++ attempt_steps (request_to url p) (Z.to_nat (attempts w w')))%list /\
     slept w' = (slept w ++ backoffs (Z.to_nat (attempts w w' - 1)))%list /\
     exists later, ([1; 2] = backoffs (Z.to_nat (attempts w w' - 1)) ++ later)%list) /\
    (url_accepted w url = false ->
     run = (Raise (OtherError "ValueError"), w)).
Proof.
  intros run w'. subst w' run.
  destruct (get_url_run et w) as [url Hurl].
  destruct (url_accepted w url) eqn:Hacc.
  - destruct (transport_run et p url w Hurl Hacc) as (n & r & w' & Hrun & Hn & Hext & _).
    rewrite Hrun. cbn [snd].
    rewrite (attempts_advances _ _ _ Hext), length_calls_attempt_steps.
    split; [unfold MAX_RETRIES; lia|].
    exists url. split; [assumption|]. split; [|intros H; congruence].
    intros _. rewrite Nat2Z.id.
    replace (Z.to_nat (Z.of_nat n - 1)) with (n - 1)%nat by lia.
    split; [lia|]. split; [apply (timeline_advances _ _ _ Hext)|].
    split; [now rewrite (slept_advances _ _ _ Hext), sleeps_attempt_steps|].
    destruct n as [|[|[|[|n]]]]; try lia.
    + exists [1; 2]. reflexivity.
    + exists [2]. reflexivity.
    + exists []. reflexivity.
  - rewrite (transport_rejected et p url w Hurl Hacc). cbn [snd].
    split; [unfold attempts, MAX_RETRIES; lia|].
    exists url. split; [assumption|]. split; [intros H; congruence|reflexivity].
Qed.

(** X2. The transport ends in one of five ways: it returns the
    response, or raises BadRequestException, ThrottlingException,
    MaxRetriesException or the exception of another class that the
    call itself raised.  HTTPError and URLError never leave it, and
    MaxRetriesException is raised only after three calls. *)
Theorem transport_outcomes (et : EntryType) (p : list byte) (w : World) :
  let run := http_retryable (do_request et p) w in
  transport_outcome (fst run) = true /\
  (forall code msg, fst run <> Raise (HTTPError code msg)) /\
  (forall reason, fst run <> Raise (URLError reason)) /\
  (fst run = Raise MaxRetriesException -> attempts w (snd run) = MAX_RETRIES).
Proof.
  destruct (get_url_run et w) as [url Hurl].
  destruct (url_accepted w url) eqn:Hacc.
  - destruct (transport_run et p url w Hurl Hacc)
      as (n & r & w' & Hrun & Hn & Hext & Hout & Hmax).
    rewrite Hrun. cbn [fst snd]. split; [assumption|].
    split; [|split].
    + intros code msg ->. discriminate.
    + intros reason ->. discriminate.
    + intros Hr.
      rewrite (attempts_advances _ _ _ Hext), length_calls_attempt_steps, (Hmax Hr).
      reflexivity.
  - rewrite (transport_rejected et p url w Hurl Hacc). cbn [fst snd].
    split; [reflexivity|]. split; [|split]; discriminate.
Qed.

(** X3. For a URL that [request.Request] takes, an exception that is
    neither HTTPError nor URLError (raised by the [j + 1]-th call,
    after [j] retryable failures) is not retried: it leaves the
    transport as it is, and the call that raised it is the last event
    of the run: no sleep and no call come after it.  [_send_payload]
    does not handle it either. *)
Theorem transport_foreign_exception (et : EntryType) (p : list byte) (w : World)
    (url : string) (j : nat) (what : string) :
  _get_ingest_service_url et w = (Return url, w) ->
  url_accepted w url = true ->
  (j < 3)%nat ->
  (forall i, (i < j)%nat -> retryable (upcoming w i) = true) ->
  upcoming w j = OtherFail what ->
  exists w',
    http_retryable (do_request et p) w = (Raise (OtherError what), w') /\
    attempts w w' = Z.of_nat j + 1 /\
    slept w' = (slept w ++ backoffs j)%list /\
    timeline w' = (timeline w ++ attempt_steps (request_to url p) (S j))%list /\
    (exists before,
       attempt_steps (request_to url p) (S j) = (before ++ [Called (request_to url p)])%list) /\
    _send_payload et p w = (Raise (OtherError what), w').
Proof.
  intros Hurl Hacc Hj Hpre Hrep.
  pose proof (attempt_decides et p url w j Hurl Hacc Hj Hpre) as H. rewrite Hrep in H.
  destruct H as (w' & Hext & Hrun). exists w'.
  unfold http_retryable. split; [assumption|].
  split; [rewrite (attempts_advances _ _ _ Hext), length_calls_attempt_steps; lia|].
  split.
  { rewrite (slept_advances _ _ _ Hext), sleeps_attempt_steps.
    now replace (S j - 1)%nat with j by lia. }
  split; [apply (timeline_advances _ _ _ Hext)|].
  split.
  { rewrite <- attempt_steps_S. eexists. rewrite app_assoc. reflexivity. }
  unfold _send_payload, try_except_else, http_retryable. rewrite Hrun. reflexivity.
Qed.

(** ** The requests the transport makes *)

(** X4. Every call the transport makes for a payload passes the same
    request: the URL resolved from the environment, the payload as
    body, and the two headers X-License-Key and Content-Encoding:
    gzip.  Retries re-send it unchanged. *)
Theorem transport_resends_same_request (et : EntryType) (p : list byte) (w : World) :
  exists url,
    _get_ingest_service_url et w = (Return url, w) /\
    sent (snd (http_retryable (do_request et p) w)) =
    (sent w ++ repeat (request_to url p)
                 (Z.to_nat (attempts w (snd (http_retryable (do_request et p) w)))))%list.
Proof.
  destruct (get_url_run et w) as [url Hurl]. exists url. split; [assumption|].
  destruct (url_accepted w url) eqn:Hacc.
  - destruct (transport_run et p url w Hurl Hacc) as (n & r & w' & Hrun & _ & Hext & _).
    rewrite Hrun. cbn [snd].
    rewrite (attempts_advances _ _ _ Hext), (sent_advances _ _ _ Hext),
      calls_attempt_steps, repeat_length, Nat2Z.id.
    reflexivity.
  - rewrite (transport_rejected et p url w Hurl Hacc). cbn [snd].
    unfold attempts. rewrite Z.sub_diag. cbn [Z.to_nat repeat].
    now rewrite app_nil_r.
Qed.

(** ** [_send_payload] *)

(** X5. [_send_payload] never lets a BadRequestException out: it
    returns normally, or raises MaxRetriesException,
    ThrottlingException or an exception of another class. *)
Theorem send_payload_never_bad_request (et : EntryType) (p : list byte) (w : World) :
  match fst (_send_payload et p w) with
  | Return _ => True
  | Raise MaxRetriesException => True
  | Raise (ThrottlingException _) => True
  | Raise (OtherError _) => True
  | _ => False
  end.
Proof.
  destruct (get_url_run et w) as [url Hurl].
  destruct (url_accepted w url) eqn:Hacc.
  - destruct (transport_run et p url w Hurl Hacc) as (n & r & w0 & Hrun & _ & _ & Hout & _).
    unfold _send_payload, try_except_else. rewrite Hrun.
    destruct r as [resp|e|]; cbn [fst] in *.
    + exact I.
    + destruct e; try discriminate; exact I.
    + discriminate.
  - unfold _send_payload, try_except_else.
    rewrite (transport_rejected et p url w Hurl Hacc). exact I.
Qed.

Lemma first_attempt_run et p w url :
  _get_ingest_service_url et w = (Return url, w) ->
  url_accepted w url = true ->
  http_retryable (do_request et p) w =
  match upcoming w 0 with
  | HttpOk code => (Return (mkResponse code), after_call w (request_to url p))
  | HttpFail code msg =>
      if code =? 429
      then (Raise (ThrottlingException
                     (_format_error (HTTPError code msg) "Too many requests")),
            after_call w (request_to url p))
      else http_retryable (do_request et p) w
  | _ => http_retryable (do_request et p) w
  end.
Proof.
  intros Hurl Hacc. unfold upcoming. rewrite Nat.add_0_r.
  destruct (net w (List.length (sent w))) as [code|code msg|reason|what] eqn:Hrep;
    try reflexivity.
  - unfold http_retryable, wrapper_func.
    change (Z.to_nat MAX_RETRIES) with 3%nat. cbn [wrapper_loop].
    change (0 <? MAX_RETRIES) with true. change (0 <? 0) with false. cbv iota.
    unfold bind at 1, ret at 1. unfold try_except_else.
    rewrite (do_request_to et p w url Hurl Hacc). unfold urlopen. rewrite Hrep.
    reflexivity.
  - destruct (code =? 429) eqn:E; [|reflexivity].
    apply Z.eqb_eq in E. subst code.
    unfold http_retryable, wrapper_func.
    change (Z.to_nat MAX_RETRIES) with 3%nat. cbn [wrapper_loop].
    change (0 <? MAX_RETRIES) with true. change (0 <? 0) with false. cbv iota.
    unfold bind at 1, ret at 1. unfold try_except_else.
    rewrite (do_request_to et p w url Hurl Hacc). unfold urlopen. rewrite Hrep.
    reflexivity.
Qed.

Lemma send_payload_delivered et p w url code :
  _get_ingest_service_url et w = (Return url, w) ->
  url_accepted w url = true ->
  upcoming w 0 = HttpOk code ->
  _send_payload et p w =
  (Return tt, snd (print (sent_line code) (after_call w (request_to url p)))).
Proof.
  intros Hurl Hacc Hrep. unfold _send_payload, try_except_else.
  rewrite (first_attempt_run et p w url Hurl Hacc), Hrep. reflexivity.
Qed.

Lemma send_payload_throttled et p w url msg :
  _get_ingest_service_url et w = (Return url, w) ->
  url_accepted w url = true ->
  upcoming w 0 = HttpFail 429 msg ->
  _send_payload et p w =
  (Raise (ThrottlingException ("HTTP Error 429: " ++ msg ++ ". Too many requests")),
   after_call w (request_to url p)).
Proof.
  intros Hurl Hacc Hrep. unfold _send_payload, try_except_else.
  rewrite (first_attempt_run et p w url Hurl Hacc), Hrep. reflexivity.
Qed.

Lemma send_payload_rejected et p w url :
  _get_ingest_service_url et w = (Return url, w) ->
  url_accepted w url = false ->
  _send_payload et p w = (Raise (OtherError "ValueError"), w).
Proof.
  intros Hurl Hacc. unfold _send_payload, try_except_else.
  rewrite (transport_rejected et p url w Hurl Hacc). reflexivity.
Qed.

Section Payloads.
Context {codec : Codec}.

Lemma generate_nonempty (fuel : nat) : forall data payloads,
  _generate_payloads fuel data = Return payloads -> payloads <> [].
Proof.
  induction fuel as [|fuel IH]; intros data payloads H;
    destruct (fits data) eqn:Hf.
  - rewrite (generate_fits _ _ Hf) in H. injection H as <-. discriminate.
  - now rewrite (generate_no_fuel _ Hf) in H.
  - rewrite (generate_fits _ _ Hf) in H. injection H as <-. discriminate.
  - rewrite (generate_splits _ _ Hf) in H.
    destruct (_split data) as [[d1 d2]| |]; try discriminate.
    cbn [rbind fst snd] in H.
    destruct (_generate_payloads fuel d1) as [ps1| |] eqn:E1; try discriminate.
    destruct (_generate_payloads fuel d2) as [ps2| |] eqn:E2; try discriminate.
    cbn [rbind] in H. injection H as <-.
    intros Happ. apply app_eq_nil in Happ as [-> _].
    exact (IH d1 [] E1 eq_refl).
Qed.
End Payloads.

(** X6. A 429 on the first call for a payload is not handled by
    [_send_payload]: ThrottlingException leaves it with nothing
    printed, after that single call, and [_send_log_entry] sends none
    of the payloads after it.  (The call is made when
    [request.Request] takes the URL; when it does not, its ValueError
    leaves [_send_log_entry] in the same way, before the call.) *)
Theorem throttling_aborts_record {codec : Codec}
    (fuel : nat) (log_entry : string) (ctx : LambdaContext)
    (before after : list (list byte)) (p : list byte) (w w1 : World) (msg : string) :
  let send := fun payload => _send_payload (_get_entry_type log_entry) payload in
  _generate_payloads fuel (envelope log_entry ctx) = Return (before ++ p :: after)%list ->
  for_each before send w = (Return tt, w1) ->
  upcoming w1 0 = HttpFail 429 msg ->
  exists url,
    _get_ingest_service_url (_get_entry_type log_entry) w1 = (Return url, w1) /\
    (url_accepted w1 url = true ->
     _send_log_entry fuel log_entry ctx w =
     (Raise (ThrottlingException ("HTTP Error 429: " ++ msg ++ ". Too many requests")),
      after_call w1 (request_to url p))) /\
    (url_accepted w1 url = false ->
     _send_log_entry fuel log_entry ctx w = (Raise (OtherError "ValueError"), w1)).
Proof.
  intros send Hgen Hbefore Hrep. subst send.
  destruct (get_url_run (_get_entry_type log_entry) w1) as [url Hurl].
  exists url. split; [assumption|].
  rewrite (send_log_entry_unfold _ _ _ _ _ Hgen).
  rewrite (for_each_app _ _ _ _ _ Hbefore).
  cbn [for_each]. unfold bind. cbv beta.
  split; intros Hacc.
  - rewrite (send_payload_throttled _ p w1 url msg Hurl Hacc Hrep). reflexivity.
  - rewrite (send_payload_rejected _ p w1 url Hurl Hacc). reflexivity.
Qed.

(** ** Deliveries *)

Lemma for_each_delivered et url : forall payloads codes w,
  _get_ingest_service_url et w = (Return url, w) ->
  url_accepted w url = true ->
  List.length codes = List.length payloads ->
  (forall i code, nth_error codes i = Some code -> upcoming w i = HttpOk code) ->
  exists w',
    for_each payloads (fun payload => _send_payload et payload) w = (Return tt, w') /\
    sent w' = (sent w ++ map (request_to url) payloads)%list /\
    slept w' = slept w /\
    stdout w' = (stdout w ++ map sent_line codes)%list /\
    timeline w' = (timeline w ++ map Called (map (request_to url) payloads))%list.
Proof.
  induction payloads as [|p payloads IH]; intros codes w Hurl Hacc Hlen Hrep.
  - destruct codes; [|discriminate]. exists w. cbn [for_each map].
    rewrite !app_nil_r. auto.
  - destruct codes as [|code codes]; [discriminate|].
    cbn [for_each]. unfold bind.
    rewrite (send_payload_delivered et p w url code Hurl Hacc (Hrep 0%nat code eq_refl)).
    set (w1 := snd (print (sent_line code) (after_call w (request_to url p)))).
    destruct (IH codes w1) as (w' & Hrun & Hsent & Hslept & Hout & Htime).
    + apply (url_reads_environment et w w1 url eq_refl Hurl).
    + exact Hacc.
    + simpl in Hlen. lia.
    + intros i c Hi. specialize (Hrep (S i) c Hi).
      unfold upcoming in *. subst w1. cbn [print after_call snd net sent].
      rewrite length_app. cbn [List.length].
      replace (List.length (sent w) + 1 + i)%nat with (List.length (sent w) + S i)%nat
        by lia.
      assumption.
    + exists w'. split; [assumption|]. subst w1.
      cbn [print after_call snd sent slept stdout timeline] in *.
      rewrite Hsent, Hslept, Hout, Htime. cbn [map]. rewrite <- !app_assoc.
      auto.
Qed.

(** X7. When the service accepts every request, [_send_log_entry]
    makes exactly one request per payload, in the order
    [_generate_payloads] returned them, all to the URL of the entry's
    type, never sleeps, and prints one line per delivery.  (The
    requests are made when [request.Request] takes the URL; when it
    does not, its ValueError leaves [_send_log_entry] at the first
    payload, with nothing done.) *)
Theorem all_payloads_delivered_in_order {codec : Codec}
    (fuel : nat) (log_entry : string) (ctx : LambdaContext)
    (payloads : list (list byte)) (codes : list Z) (w : World) :
  _generate_payloads fuel (envelope log_entry ctx) = Return payloads ->
  List.length codes = List.length payloads ->
  (forall i code, nth_error codes i = Some code -> upcoming w i = HttpOk code) ->
  exists url,
    _get_ingest_service_url (_get_entry_type log_entry) w = (Return url, w) /\
    (url_accepted w url = true ->
     exists w',
       _send_log_entry fuel log_entry ctx w = (Return tt, w') /\
       sent w' = (sent w ++ map (request_to url) payloads)%list /\
       slept w' = slept w /\
       stdout w' = (stdout w ++ map sent_line codes)%list /\
       timeline w' = (timeline w ++ map Called (map (request_to url) payloads))%list) /\
    (url_accepted w url = false ->
     _send_log_entry fuel log_entry ctx w = (Raise (OtherError "ValueError"), w)).
Proof.
  intros Hgen Hlen Hrep.
  destruct (get_url_run (_get_entry_type log_entry) w) as [url Hurl].
  exists url. split; [assumption|].
  rewrite (send_log_entry_unfold _ _ _ _ _ Hgen).
  split; intros Hacc.
  - destruct (for_each_delivered _ url payloads codes w Hurl Hacc Hlen Hrep)
      as (w' & Hrun & H).
    exists w'. auto.
  - pose proof (generate_nonempty _ _ _ Hgen) as Hne.
    destruct payloads as [|p payloads]; [contradiction|].
    cbn [for_each]. unfold bind.
    rewrite (send_payload_rejected _ p w url Hurl Hacc). reflexivity.
Qed.

(** ** The destination *)

(** X8. The URL of a request is host, path of the entry type and
    "/v1".  NR_REGION decides the host when it is set: US and EU name
    the two fixed hosts, anything else is taken as the host itself;
    when it is not set, the host is the EU one exactly when LICENSE_KEY
    starts with "eu".  Resolving the URL never fails and changes
    nothing. *)
Theorem ingest_url_resolution (et : EntryType) (w : World) :
  let host :=
    match environ w "NR_REGION" with
    | Some region =>
        if String.eqb region "US" then US_INGEST_SERVICE_HOST
        else if String.eqb region "EU" then EU_INGEST_SERVICE_HOST
        else region
    | None =>
        match environ w "LICENSE_KEY" with
        | Some key => if startswith key "eu" then EU_INGEST_SERVICE_HOST
                      else US_INGEST_SERVICE_HOST
        | None => US_INGEST_SERVICE_HOST
        end
    end in
  _get_ingest_service_url et w =
  (Return (host ++ INGEST_SERVICE_PATHS et ++ "/v1"), w).
Proof.
  unfold _get_ingest_service_url, _get_ingest_service_host, bind, getenv, ret.
  destruct (environ w "NR_REGION") as [region|].
  - destruct (String.eqb region "US"); [reflexivity|].
    destruct (String.eqb region "EU"); reflexivity.
  - destruct (environ w "LICENSE_KEY") as [key|].
    + destruct (startswith key "eu"); reflexivity.
    + reflexivity.
Qed.

(** ** What a payload decodes to *)

(** X9. Decompressing and parsing the payload of an envelope gives
    the envelope back: the context and the entry text, unchanged. *)
Theorem wire_round_trip {codec : Codec} {laws : CodecLaws codec} (data : Data) :
  pyval_wf (context data) = true ->
  exists raw,
    gzip_decompress (wire data) = Return raw /\
    json_loads (string_of_list_byte raw) =
    Some (PDict [("context", context data); ("entry", PStr (entry data))]).
Proof.
  intros Hc. exists (encode (json_dumps (pyval_of_data data))).
  split; [apply decompress_compress|].
  unfold encode. rewrite string_of_list_byte_of_string.
  apply loads_dumps. cbn. now rewrite Hc.
Qed.

(** ** More on the splitter *)

Lemma dict_get_set_other kvs k k' v :
  k <> k' -> dict_get (dict_set kvs k v) k' = dict_get kvs k'.
Proof.
  intros Hne. induction kvs as [|[k0 v0] kvs IH]; simpl.
  - destruct (String.eqb k k') eqn:E; [apply String.eqb_eq in E; contradiction|reflexivity].
  - destruct (String.eqb k0 k) eqn:E; simpl.
    + apply String.eqb_eq in E. subst k0.
      destruct (String.eqb k k') eqn:E'; [apply String.eqb_eq in E'; contradiction|reflexivity].
    + destruct (String.eqb k0 k'); [reflexivity|exact IH].
Qed.

Lemma dict_get_some_key kvs k v :
  dict_get kvs k = Some v -> existsb (String.eqb k) (map fst kvs) = true.
Proof.
  induction kvs as [|[k0 v0] kvs IH]; simpl; [discriminate|].
  rewrite (String.eqb_sym k k0).
  destruct (String.eqb k0 k); [reflexivity|exact IH].
Qed.

Lemma take_skip_chars s : forall n inside,
  take_chars n inside s ++ skip_chars n inside s = s.
Proof.
  induction s as [|c s IH]; intros n inside; cbn [take_chars skip_chars];
    [reflexivity|].
  destruct (inside && is_continuation c).
  - cbn [append]. now rewrite IH.
  - destruct n as [|n]; [reflexivity|]. cbn [append]. now rewrite IH.
Qed.

Lemma take_chars_all s : forall n inside,
  (len_chars inside s <= n)%nat -> take_chars n inside s = s.
Proof.
  induction s as [|c s IH]; intros n inside H; cbn [take_chars len_chars] in *;
    [reflexivity|].
  destruct (inside && is_continuation c).
  - now rewrite IH.
  - destruct n as [|n]; [lia|]. rewrite IH; [reflexivity|lia].
Qed.

Lemma len_skip_chars s : forall n inside,
  len_chars false (skip_chars n inside s) = (len_chars inside s - n)%nat.
Proof.
  induction s as [|c s IH]; intros n inside; cbn [skip_chars len_chars];
    [reflexivity|].
  destruct (inside && is_continuation c).
  - apply IH.
  - destruct n as [|n]; [|apply IH]. cbn [len_chars andb]. lia.
Qed.

Lemma len_take_chars s : forall n inside,
  len_chars inside (take_chars n inside s) = Nat.min n (len_chars inside s).
Proof.
  induction s as [|c s IH]; intros n inside; cbn [take_chars len_chars].
  - now rewrite Nat.min_0_r.
  - destruct (inside && is_continuation c) eqn:E.
    + cbn [len_chars]. rewrite E. apply IH.
    + destruct n as [|n]; [reflexivity|]. cbn [len_chars]. rewrite E, IH. reflexivity.
Qed.

Lemma str_skip_0 s : str_skip 0 s = s.
Proof. destruct s; reflexivity. Qed.

(** The two halves [s[:h]] and [s[h:len(s)]] of a string. *)
Lemma str_slice_halves s h :
  str_slice s 0 h = str_take h s /\
  str_slice s h (str_len s) = str_skip h s /\
  str_take h s ++ str_skip h s = s.
Proof.
  unfold str_slice. rewrite str_skip_0, Nat.sub_0_r. split; [reflexivity|]. split.
  - unfold str_take at 1. apply take_chars_all.
    unfold str_skip. rewrite len_skip_chars. reflexivity.
  - apply take_skip_chars.
Qed.

Section SplitterMore.
Context {codec : Codec}.

(** X10. Whatever [_generate_payloads] returns, for any envelope,
    each payload is strictly shorter than MAX_PAYLOAD_SIZE, and there
    is at least one. *)
Theorem payloads_below_limit (fuel : nat) (data : Data) (payloads : list (list byte)) :
  _generate_payloads fuel data = Return payloads ->
  payloads <> [] /\
  Forall (fun p => Z.of_nat (List.length p) < MAX_PAYLOAD_SIZE) payloads.
Proof.
  intros H. split.
  - exact (generate_nonempty fuel data payloads H).
  - exact (generate_below_limit fuel data payloads H).
Qed.

(** X12. [_split] on an entry with a logEvents list of [n] events
    returns two envelopes with the context of the input; the entry of
    the first holds the first [n // 2] events and the entry of the
    second the others; every other key of the entry keeps its value
    and its place in both. *)
Theorem split_keeps_other_fields {laws : CodecLaws codec} (data : Data) kvs evs :
  json_loads (entry data) = Some (PDict kvs) ->
  dict_get kvs "logEvents" = Some (PList evs) ->
  exists d1 d2 kvs1 kvs2,
    _split data = Return (d1, d2) /\
    context d1 = context data /\ context d2 = context data /\
    json_loads (entry d1) = Some (PDict kvs1) /\
    json_loads (entry d2) = Some (PDict kvs2) /\
    dict_get kvs1 "logEvents" = Some (PList (firstn (List.length evs / 2) evs)) /\
    dict_get kvs2 "logEvents" = Some (PList (skipn (List.length evs / 2) evs)) /\
    map fst kvs1 = map fst kvs /\ map fst kvs2 = map fst kvs /\
    (forall k, k <> "logEvents" ->
               dict_get kvs1 k = dict_get kvs k /\ dict_get kvs2 k = dict_get kvs k).
Proof.
  intros Hl Hg. destruct (parsed_events_wf _ _ _ Hl Hg) as [Hk He].
  exists (sub_envelope (context data) kvs (firstn (half_of evs) evs)),
         (sub_envelope (context data) kvs (skipn (half_of evs) evs)),
         (dict_set kvs "logEvents" (PList (firstn (half_of evs) evs))),
         (dict_set kvs "logEvents" (PList (skipn (half_of evs) evs))).
  split; [exact (split_parsed data kvs evs Hl Hg)|].
  split; [reflexivity|]. split; [reflexivity|].
  split; [apply sub_parse; [assumption|now apply forallb_firstn]|].
  split; [apply sub_parse; [assumption|now apply forallb_skipn]|].
  split; [apply dict_get_set|]. split; [apply dict_get_set|].
  rewrite !dict_set_keys, (dict_get_some_key _ _ _ Hg).
  split; [reflexivity|]. split; [reflexivity|].
  intros k Hk'. split; apply dict_get_set_other; congruence.
Qed.

(** X13. A logEvents that is a JSON string is not rejected: [_split]
    slices the string like a list, by characters: the first envelope
    gets its first [len // 2] characters and the second the rest. *)
Theorem split_string_log_events (data : Data) kvs (s : string) :
  json_loads (entry data) = Some (PDict kvs) ->
  dict_get kvs "logEvents" = Some (PStr s) ->
  let h := (str_len s / 2)%nat in
  let left := str_take h s in
  let right := str_skip h s in
  _split data =
  Return (mkData (context data) (json_dumps (PDict (dict_set kvs "logEvents" (PStr left)))),
          mkData (context data) (json_dumps (PDict (dict_set kvs "logEvents" (PStr right)))))
  /\ left ++ right = s
  /\ str_len left = h /\ str_len right = (str_len s - h)%nat.
Proof.
  intros Hl Hg h left right. subst h left right.
  destruct (str_slice_halves s (str_len s / 2)) as (H1 & H2 & H3).
  split; [|split; [exact H3|split]].
  - unfold _split. rewrite Hl. cbn [rbind getitem_str]. rewrite Hg.
    cbn [rbind py_len py_slice _reconstruct_data setitem_str fst snd].
    rewrite dict_set_set.
    replace (Z.to_nat (Z.of_nat (str_len s) / 2)) with (str_len s / 2)%nat.
    + change (Z.to_nat 0) with 0%nat. rewrite Nat2Z.id, H1, H2. reflexivity.
    + rewrite <- (Nat2Z.id (str_len s / 2)). f_equal.
      now rewrite Nat2Z.inj_div.
  - unfold str_len, str_take. rewrite len_take_chars. apply Nat.min_l.
    apply Nat.Div0.div_le_upper_bound. lia.
  - unfold str_len, str_skip. apply len_skip_chars.
Qed.
End SplitterMore.

Section SplitterDepth.
Context {codec : Codec} {laws : CodecLaws codec}.

(** X11. When every sub-envelope of at most one event is below the
    limit, a recursion depth of [len(logEvents) + 1] is enough:
    [_generate_payloads] returns, every payload is below the limit and
    the payloads carry the events in order. *)
Theorem splitting_terminates (data : Data) kvs evs (fuel : nat) :
  pyval_wf (context data) = true ->
  json_loads (entry data) = Some (PDict kvs) ->
  dict_get kvs "logEvents" = Some (PList evs) ->
  (forall s, (List.length s <= 1)%nat -> incl s evs ->
             fits (sub_envelope (context data) kvs s) = true) ->
  (List.length evs < fuel)%nat ->
  exists payloads,
    _generate_payloads fuel data = Return payloads /\
    Forall (fun p => Z.of_nat (List.length p) < MAX_PAYLOAD_SIZE) payloads /\
    carried_events payloads = Some evs.
Proof.
  intros Hc Hl Hg Hsmall Hfuel.
  destruct (parsed_events_wf _ _ _ Hl Hg) as [Hk He].
  assert (Hex : exists payloads,
             _generate_payloads (S (List.length evs)) data = Return payloads).
  { destruct (fits data) eqn:Hf.
    - rewrite (generate_fits _ _ Hf). eauto.
    - rewrite (generate_splits _ _ Hf), (split_parsed _ _ _ Hl Hg).
      cbn [rbind fst snd].
      destruct (generate_sub_terminates (context data) kvs Hk (List.length evs)
                  (firstn (half_of evs) evs)) as [ps1 ->].
      { now apply forallb_firstn. }
      { rewrite length_firstn. lia. }
      { intros s H1 H2. apply Hsmall; [assumption|].
        intros x Hx. apply H2 in Hx. rewrite <- (firstn_skipn (half_of evs) evs).
        apply in_or_app. now left. }
      destruct (generate_sub_terminates (context data) kvs Hk (List.length evs)
                  (skipn (half_of evs) evs)) as [ps2 ->].
      { now apply forallb_skipn. }
      { rewrite length_skipn. lia. }
      { intros s H1 H2. apply Hsmall; [assumption|].
        intros x Hx. apply H2 in Hx. rewrite <- (firstn_skipn (half_of evs) evs).
        apply in_or_app. now right. }
      cbn [rbind]. eauto. }
  destruct Hex as [payloads Hrun]. exists payloads.
  assert (Hrun' : _generate_payloads fuel data = Return payloads).
  { apply (generate_fuel_monotone (S (List.length evs))); [lia|assumption|discriminate]. }
  split; [assumption|]. split.
  - exact (generate_below_limit _ _ _ Hrun').
  - exact (generate_events data kvs evs fuel payloads Hc Hl Hg Hrun').
Qed.

(** The payloads of a sub-envelope with at least one event are those
    of consecutive, non-empty runs of its events. *)
Lemma generate_sub_partition ctx kvs :
  pyval_wf (PDict kvs) = true ->
  forall fuel seg payloads,
    forallb pyval_wf seg = true ->
    (1 <= List.length seg)%nat ->
    _generate_payloads fuel (sub_envelope ctx kvs seg) = Return payloads ->
    exists runs,
      payloads = map (fun s => wire (sub_envelope ctx kvs s)) runs /\
      List.concat runs = seg /\ Forall (fun s => s <> []) runs.
Proof.
  intros Hk. induction fuel as [|fuel IH]; intros seg payloads Hs Hlen H.
  - destruct (fits (sub_envelope ctx kvs seg)) eqn:Hf.
    + rewrite (generate_fits _ _ Hf) in H. injection H as <-.
      exists [seg]. cbn [map List.concat]. rewrite app_nil_r.
      split; [reflexivity|]. split; [reflexivity|].
      constructor; [|constructor]. intros ->. simpl in Hlen. lia.
    + now rewrite (generate_no_fuel _ Hf) in H.
  - destruct (fits (sub_envelope ctx kvs seg)) eqn:Hf.
    + rewrite (generate_fits _ _ Hf) in H. injection H as <-.
      exists [seg]. cbn [map List.concat]. rewrite app_nil_r.
      split; [reflexivity|]. split; [reflexivity|].
      constructor; [|constructor]. intros ->. simpl in Hlen. lia.
    + destruct (le_lt_dec (List.length seg) 1) as [Hone|Hmany].
      * rewrite (generate_sub_unbounded ctx kvs Hk seg Hs Hone Hf) in H. discriminate.
      * assert (Hh : (1 <= half_of seg /\ half_of seg < List.length seg)%nat).
        { unfold half_of. split.
          - apply Nat.div_le_lower_bound; lia.
          - apply Nat.div_lt; lia. }
        rewrite (generate_splits _ _ Hf), (split_sub _ _ _ Hk Hs) in H.
        cbn [rbind fst snd] in H.
        destruct (_generate_payloads fuel
                    (sub_envelope ctx kvs (firstn (half_of seg) seg)))
          as [ps1| |] eqn:E1; try discriminate.
        cbn [rbind] in H.
        destruct (_generate_payloads fuel
                    (sub_envelope ctx kvs (skipn (half_of seg) seg)))
          as [ps2| |] eqn:E2; try discriminate.
        cbn [rbind] in H. injection H as <-.
        assert (Hl1 : (1 <= List.length (firstn (half_of seg) seg))%nat)
          by (rewrite length_firstn; lia).
        assert (Hl2 : (1 <= List.length (skipn (half_of seg) seg))%nat)
          by (rewrite length_skipn; lia).
        destruct (IH _ _ (forallb_firstn _ _ _ Hs) Hl1 E1) as (r1 & -> & Hc1 & Hn1).
        destruct (IH _ _ (forallb_skipn _ _ _ Hs) Hl2 E2) as (r2 & -> & Hc2 & Hn2).
        exists (r1 ++ r2)%list. rewrite map_app, concat_app, Hc1, Hc2, firstn_skipn.
        split; [reflexivity|]. split; [reflexivity|].
        apply Forall_app. auto.
Qed.

Lemma length_concat_nonempty {A} (runs : list (list A)) :
  Forall (fun s => s <> []) runs -> (List.length runs <= List.length (List.concat runs))%nat.
Proof.
  induction 1 as [|s runs Hs _ IH]; simpl; [lia|].
  rewrite length_app. destruct s; [contradiction|]. simpl. lia.
Qed.

(** What [_generate_payloads] returns for an envelope over the limit
    with two or more events, when it returns. *)
Lemma returned_payloads_partition (data : Data) kvs evs fuel payloads :
  json_loads (entry data) = Some (PDict kvs) ->
  dict_get kvs "logEvents" = Some (PList evs) ->
  (2 <= List.length evs)%nat ->
  fits data = false ->
  _generate_payloads fuel data = Return payloads ->
  exists runs,
    payloads = map (fun s => wire (sub_envelope (context data) kvs s)) runs /\
    List.concat runs = evs /\ Forall (fun s => s <> []) runs /\
    (2 <= List.length payloads <= List.length evs)%nat.
Proof.
  intros Hl Hg Hlen Hf H. destruct (parsed_events_wf _ _ _ Hl Hg) as [Hk He].
  destruct fuel as [|fuel]; [now rewrite (generate_no_fuel _ Hf) in H|].
  assert (Hh : (1 <= half_of evs /\ half_of evs < List.length evs)%nat).
  { unfold half_of. split.
    - apply Nat.div_le_lower_bound; lia.
    - apply Nat.div_lt; lia. }
  rewrite (generate_splits _ _ Hf), (split_parsed _ _ _ Hl Hg) in H.
  cbn [rbind fst snd] in H.
  destruct (_generate_payloads fuel
              (sub_envelope (context data) kvs (firstn (half_of evs) evs)))
    as [ps1| |] eqn:E1; try discriminate.
  cbn [rbind] in H.
  destruct (_generate_payloads fuel
              (sub_envelope (context data) kvs (skipn (half_of evs) evs)))
    as [ps2| |] eqn:E2; try discriminate.
  cbn [rbind] in H. injection H as <-.
  assert (Hl1 : (1 <= List.length (firstn (half_of evs) evs))%nat)
    by (rewrite length_firstn; lia).
  assert (Hl2 : (1 <= List.length (skipn (half_of evs) evs))%nat)
    by (rewrite length_skipn; lia).
  destruct (generate_sub_partition (context data) kvs Hk fuel _ _
              (forallb_firstn _ _ _ He) Hl1 E1) as (r1 & -> & Hc1 & Hn1).
  destruct (generate_sub_partition (context data) kvs Hk fuel _ _
              (forallb_skipn _ _ _ He) Hl2 E2) as (r2 & -> & Hc2 & Hn2).
  exists (r1 ++ r2)%list.
  assert (Hcat : List.concat (r1 ++ r2) = evs).
  { now rewrite concat_app, Hc1, Hc2, firstn_skipn. }
  assert (Hall : Forall (fun s : list pyval => s <> []) (r1 ++ r2)).
  { apply Forall_app. auto. }
  split; [now rewrite map_app|]. split; [assumption|]. split; [assumption|].
  rewrite <- map_app, length_map. split.
  - rewrite length_app.
    assert (r1 <> []).
    { intros ->. simpl in Hc1. apply (f_equal (@List.length pyval)) in Hc1.
      rewrite length_firstn in Hc1. simpl in Hc1. lia. }
    assert (r2 <> []).
    { intros ->. simpl in Hc2. apply (f_equal (@List.length pyval)) in Hc2.
      rewrite length_skipn in Hc2. simpl in Hc2. lia. }
    destruct r1; [contradiction|]. destruct r2; [contradiction|]. simpl. lia.
  - rewrite length_app, <- length_app.
    pose proof (length_concat_nonempty (r1 ++ r2) Hall) as Hle.
    rewrite Hcat in Hle. exact Hle.
Qed.

(** X14. An envelope over the limit with two or more events, each of
    which fits in a payload on its own, is cut into consecutive,
    non-empty runs of its events, one payload for each run:
    [_generate_payloads] returns, no payload is without events, and
    there are at least two payloads and at most as many as events.
    Without the condition on the single events [_generate_payloads]
    need not return; what it returns, if it does, is cut in the same
    way. *)
Theorem payloads_partition_events (data : Data) kvs evs :
  json_loads (entry data) = Some (PDict kvs) ->
  dict_get kvs "logEvents" = Some (PList evs) ->
  (2 <= List.length evs)%nat ->
  fits data = false ->
  ((forall s, (List.length s <= 1)%nat -> incl s evs ->
              fits (sub_envelope (context data) kvs s) = true) ->
   exists fuel payloads runs,
     _generate_payloads fuel data = Return payloads /\
     payloads = map (fun s => wire (sub_envelope (context data) kvs s)) runs /\
     List.concat runs = evs /\ Forall (fun s => s <> []) runs /\
     (2 <= List.length payloads <= List.length evs)%nat) /\
  (forall fuel payloads,
     _generate_payloads fuel data = Return payloads ->
     exists runs,
       payloads = map (fun s => wire (sub_envelope (context data) kvs s)) runs /\
       List.concat runs = evs /\ Forall (fun s => s <> []) runs /\
       (2 <= List.length payloads <= List.length evs)%nat).
Proof.
  intros Hl Hg Hlen Hf. split.
  - intros Hsmall.
    destruct (generate_returns data kvs evs Hl Hg Hsmall) as (fuel & payloads & H).
    destruct (returned_payloads_partition data kvs evs fuel payloads Hl Hg Hlen Hf H)
      as (runs & Hruns).
    exists fuel, payloads, runs. split; [exact H|exact Hruns].
  - intros fuel payloads H.
    exact (returned_payloads_partition data kvs evs fuel payloads Hl Hg Hlen Hf H).
Qed.
End SplitterDepth.

(** ** The trigger type and the handler *)

Lemma log_type_awslogs kvs v :
  dict_get kvs "awslogs" = Some v -> _get_log_type (PDict kvs) = Return "cw_logs".
Proof. intros Ha. unfold _get_log_type. cbn [py_in rbind]. now rewrite Ha. Qed.

(** X15. An event with the key awslogs is a CloudWatch Logs event
    whatever else it holds: Records is not looked at, so not even an
    empty Records list makes [_get_log_type] raise.  An event with
    neither awslogs nor Records is unknown. *)
Theorem log_type_cloudwatch_first (kvs : list (string * pyval)) :
  (forall v, dict_get kvs "awslogs" = Some v ->
             _get_log_type (PDict kvs) = Return "cw_logs") /\
  (dict_get kvs "awslogs" = None -> dict_get kvs "Records" = None ->
   _get_log_type (PDict kvs) = Return "unknown").
Proof.
  split.
  - intros v Ha. exact (log_type_awslogs kvs v Ha).
  - intros Ha Hr. unfold _get_log_type. cbn [py_in rbind]. now rewrite Ha, Hr.
Qed.

(** X16. Without awslogs, only the first record decides.  If it has
    no key s3 the event is unknown, whether or not it has an
    eventName; if it has s3 but no eventName, KeyError is raised; if
    it has both and eventName is a string, the event is an S3 one
    exactly when the name contains ObjectCreated. *)
Theorem log_type_of_first_record (kvs record : list (string * pyval))
    (others : list pyval) :
  dict_get kvs "awslogs" = None ->
  dict_get kvs "Records" = Some (PList (PDict record :: others)) ->
  (dict_get record "s3" = None -> _get_log_type (PDict kvs) = Return "unknown") /\
  (forall v, dict_get record "s3" = Some v -> dict_get record "eventName" = None ->
             _get_log_type (PDict kvs) = Raise KeyError) /\
  (forall v name,
     dict_get record "s3" = Some v -> dict_get record "eventName" = Some (PStr name) ->
     _get_log_type (PDict kvs) =
     Return (if contains "ObjectCreated" name then "s3" else "unknown")).
Proof.
  intros Ha Hr. unfold _get_log_type.
  cbn [py_in rbind getitem_str]. rewrite Ha, Hr.
  cbn [negb rbind getitem_0 py_in].
  split; [|split].
  - intros ->. reflexivity.
  - intros v -> Hn. cbn [negb rbind getitem_str]. now rewrite Hn.
  - intros v name -> Hn. cbn [negb rbind getitem_str]. rewrite Hn.
    cbn [rbind py_in]. now destruct (contains "ObjectCreated" name).
Qed.

Section Handler.
Context {codec : Codec}.

(** X17. For an event of unknown type [lambda_handler] prints
    "Not supported" and the event and returns: nothing is sent, nothing
    is raised. *)
Theorem handler_ignores_unknown_events (fuel : nat) (event : pyval)
    (ctx : LambdaContext) (w : World) :
  _get_log_type event = Return "unknown" ->
  exists w',
    lambda_handler fuel event ctx w = (Return tt, w') /\
    sent w' = sent w /\ slept w' = slept w /\
    stdout w' = (stdout w ++ ["Not supported"; py_repr event])%list.
Proof.
  intros H. unfold lambda_handler, bind, lift. rewrite H.
  cbn [String.eqb Ascii.eqb Bool.eqb]. cbn [print fst snd].
  eexists. split; [reflexivity|]. cbn [sent slept stdout].
  rewrite <- app_assoc. auto.
Qed.

(** X18. For a CloudWatch Logs event, [lambda_handler] is
    [_send_log_entry] on the text obtained from event['awslogs']['data']
    by base64 decoding, decompression and UTF-8 decoding; the whole
    text is one log entry. *)
Theorem handler_cloudwatch_entry (fuel : nat) (kvs : list (string * pyval))
    (awslogs : pyval) (data : string) (event_data raw : list byte) (log_entry : string)
    (ctx : LambdaContext) (w : World) :
  dict_get kvs "awslogs" = Some awslogs ->
  getitem_str awslogs "data" = Return (PStr data) ->
  b64decode data = Return event_data ->
  gzip_decompress event_data = Return raw ->
  utf8_decode raw = Return log_entry ->
  lambda_handler fuel (PDict kvs) ctx w = _send_log_entry fuel log_entry ctx w.
Proof.
  intros Ha Hd Hb Hg Hu.
  unfold lambda_handler. unfold bind at 1. unfold lift at 1.
  rewrite (log_type_awslogs kvs awslogs Ha).
  cbn [String.eqb Ascii.eqb Bool.eqb].
  unfold bind at 1, lift at 1. cbn [getitem_str]. rewrite Ha.
  unfold bind at 1, lift at 1. rewrite Hd.
  unfold bind at 1, lift at 1. rewrite Hb.
  unfold bind at 1, lift at 1. rewrite Hg.
  unfold bind at 1, lift at 1. rewrite Hu.
  reflexivity.
Qed.

(** X19. A CloudWatch Logs event that cannot be decoded raises before
    anything is sent or printed: KeyError when awslogs has no data,
    TypeError when awslogs is not a dict or data is not a string, and
    the decoder's own exception when base64, gzip or UTF-8 decoding
    fails. *)
Theorem handler_cloudwatch_decoding_errors (fuel : nat) (kvs : list (string * pyval))
    (awslogs : pyval) (ctx : LambdaContext) (w : World) :
  dict_get kvs "awslogs" = Some awslogs ->
  let decoded : res string :=
    data <-- getitem_str awslogs "data" ;
    event_data <-- match data with
                   | PStr s => b64decode s
                   | _ => Raise TypeError
                   end ;
    raw <-- gzip_decompress event_data ;
    utf8_decode raw in
  (forall e, decoded = Raise e ->
             lambda_handler fuel (PDict kvs) ctx w = (Raise e, w)) /\
  (forall kvs', awslogs = PDict kvs' -> dict_get kvs' "data" = None ->
                decoded = Raise KeyError) /\
  ((forall kvs', awslogs <> PDict kvs') -> decoded = Raise TypeError).
Proof.
  intros Ha decoded. subst decoded. split; [|split].
  - intros e He.
    unfold lambda_handler. unfold bind at 1. unfold lift at 1.
    rewrite (log_type_awslogs kvs awslogs Ha).
    cbn [String.eqb Ascii.eqb Bool.eqb].
    unfold bind at 1, lift at 1. cbn [getitem_str]. rewrite Ha.
    unfold bind at 1, lift at 1.
    destruct (getitem_str awslogs "data") as [data| |]; cbn [rbind] in He;
      [|now injection He as <-|discriminate].
    unfold bind at 1, lift at 1.
    destruct (match data with PStr s => b64decode s | _ => Raise TypeError end)
      as [event_data| |]; cbn [rbind] in He; [|now injection He as <-|discriminate].
    unfold bind at 1, lift at 1.
    destruct (gzip_decompress event_data) as [raw| |]; cbn [rbind] in He;
      [|now injection He as <-|discriminate].
    unfold bind at 1, lift at 1. rewrite He. reflexivity.
  - intros kvs' -> Hd. cbn [getitem_str]. now rewrite Hd.
  - intros Hnd. destruct awslogs; try reflexivity. now elim (Hnd kvs0).
Qed.

(** ** Objects read from S3 *)

Lemma last_component_suffix pre : forall acc,
  last_dot_component (pre ++ ".gz") acc = "gz".
Proof.
  induction pre as [|c pre IH]; intros acc.
  - reflexivity.
  - cbn [String.append last_dot_component].
    destruct (Ascii.eqb c "."%char); apply IH.
Qed.

Lemma append_assoc_str (a b c : string) : (a ++ b) ++ c = a ++ (b ++ c).
Proof. induction a as [|x a IH]; simpl; [reflexivity|now rewrite IH]. Qed.

Lemma last_component_gz s : forall acc,
  last_dot_component s acc = "gz" ->
  (exists pre, s = pre ++ ".gz") \/ acc ++ s = "gz".
Proof.
  induction s as [|c s IH]; intros acc H.
  - right. cbn [last_dot_component] in H. subst acc. reflexivity.
  - cbn [last_dot_component] in H.
    destruct (Ascii.eqb c "."%char) eqn:E.
    + apply Ascii.eqb_eq in E. subst c. left.
      destruct (IH _ H) as [[pre ->]|Hs].
      * exists (String "." pre). reflexivity.
      * exists EmptyString. simpl in Hs. now rewrite Hs.
    + destruct (IH _ H) as [[pre ->]|Hs].
      * left. exists (String c pre). reflexivity.
      * right. rewrite append_assoc_str in Hs. exact Hs.
Qed.

(** X20. [_get_s3_data] reads the object first.  For a key that is
    "gz" or ends in ".gz" it then raises TypeError (StringIO is given
    the bytes that were read); for every other key it returns the
    bytes as they were read.  A failed read raises its own
    exception. *)
Theorem s3_data_by_key (bucket key : string) (w : World) :
  let gz := key = "gz" \/ exists pre, key = pre ++ ".gz" in
  (forall data, s3_objects w bucket key = Return data -> gz ->
                _get_s3_data (PStr bucket) (PStr key) w = (Raise TypeError, w)) /\
  (forall data, s3_objects w bucket key = Return data -> ~ gz ->
                _get_s3_data (PStr bucket) (PStr key) w = (Return data, w)) /\
  (forall e, s3_objects w bucket key = Raise e ->
             _get_s3_data (PStr bucket) (PStr key) w = (Raise e, w)).
Proof.
  intros gz. subst gz. unfold _get_s3_data, bind.
  split; [|split].
  - intros data -> Hgz.
    assert (H : last_dot_component key EmptyString = "gz").
    { destruct Hgz as [->|[pre ->]]; [reflexivity|apply last_component_suffix]. }
    rewrite H. reflexivity.
  - intros data -> Hgz.
    destruct (String.eqb (last_dot_component key EmptyString) "gz") eqn:E;
      [|reflexivity].
    apply String.eqb_eq in E. exfalso. apply Hgz.
    destruct (last_component_gz key EmptyString E) as [H|H]; [now right|now left].
  - intros e ->. reflexivity.
Qed.
End Handler.

(** ** Further runs on concrete inputs *)

Section MoreRuns.
Import Examples MoreExamples.
#[local] Existing Instance RefCodec.codec.

Lemma transport_foreign_exception_witness :
  let w := world reset_then_200 no_env in
  let req := request_to "https://cloud-collector.newrelic.com/aws/v1" [] in
  exists w',
    http_retryable (do_request OTHER []) w
    = (Raise (OtherError "ConnectionResetError"), w') /\
    attempts w w' = 1 /\
    slept w' = [] /\
    timeline w' = [Called req] /\
    _send_payload OTHER [] w = (Raise (OtherError "ConnectionResetError"), w').
Proof.
  intros w req.
  destruct (transport_foreign_exception OTHER [] w _ 0%nat "ConnectionResetError"
              eq_refl eq_refl) as (w' & H1 & H2 & H3 & H4 & _ & H5).
  - lia.
  - intros i Hi. lia.
  - reflexivity.
  - exists w'. split; [exact H1|]. split; [exact H2|]. split; [exact H3|].
    split; [exact H4|exact H5].
Defined.

Lemma two_entry_type : _get_entry_type two_entry = OTHER.
Proof. vm_compute. reflexivity. Qed.

Lemma throttling_aborts_record_witness :
  let w := world throttled_then_200 no_env in
  let p1 := wire (sub_envelope (context (envelope two_entry ctx0)) two_kvs [event_a]) in
  let url := "https://cloud-collector.newrelic.com/aws/v1" in
  _send_log_entry 1 two_entry ctx0 w =
  (Raise (ThrottlingException "HTTP Error 429: Too Many Requests. Too many requests"),
   after_call w (request_to url p1)).
Proof.
  intros w p1 url.
  destruct (throttling_aborts_record 1 two_entry ctx0 []
              [wire (sub_envelope (context (envelope two_entry ctx0)) two_kvs [event_b])]
              p1 w w "Too Many Requests" two_payloads eq_refl eq_refl)
    as (url' & Hurl & Hacc & _).
  rewrite two_entry_type in Hurl. injection Hurl as <-.
  apply Hacc. reflexivity.
Defined.

Lemma all_payloads_delivered_in_order_witness :
  let w := world always_200 no_env in
  let p1 := wire (sub_envelope (context (envelope two_entry ctx0)) two_kvs [event_a]) in
  let p2 := wire (sub_envelope (context (envelope two_entry ctx0)) two_kvs [event_b]) in
  let url := "https://cloud-collector.newrelic.com/aws/v1" in
  exists w',
    _send_log_entry 1 two_entry ctx0 w = (Return tt, w') /\
    sent w' = [request_to url p1; request_to url p2] /\
    slept w' = [] /\
    stdout w' = [sent_line 200; sent_line 200] /\
    timeline w' = [Called (request_to url p1); Called (request_to url p2)].
Proof.
  intros w p1 p2 url.
  destruct (all_payloads_delivered_in_order 1 two_entry ctx0 [p1; p2] [200; 200] w
              two_payloads eq_refl) as (url' & Hurl & Hacc & _).
  - intros [|[|[|i]]] code Hi; cbn [nth_error] in Hi; try discriminate;
      injection Hi as <-; reflexivity.
  - rewrite two_entry_type in Hurl. injection Hurl as <-.
    apply Hacc. reflexivity.
Defined.

Lemma wire_round_trip_witness :
  exists raw,
    gzip_decompress (wire (envelope small_entry ctx0)) = Return raw /\
    json_loads (string_of_list_byte raw) =
    Some (PDict [("context", context (envelope small_entry ctx0));
                 ("entry", PStr small_entry)]).
Proof.
  exact (wire_round_trip (laws := RefCodecFacts.ref_codec_laws)
           (envelope small_entry ctx0) eq_refl).
Defined.

Lemma payloads_below_limit_witness :
  [wire (sub_envelope (context (envelope two_entry ctx0)) two_kvs [event_a]);
   wire (sub_envelope (context (envelope two_entry ctx0)) two_kvs [event_b])] <> [] /\
  Forall (fun p => Z.of_nat (List.length p) < MAX_PAYLOAD_SIZE)
    [wire (sub_envelope (context (envelope two_entry ctx0)) two_kvs [event_a]);
     wire (sub_envelope (context (envelope two_entry ctx0)) two_kvs [event_b])].
Proof.
  exact (payloads_below_limit 1 (envelope two_entry ctx0) _ two_payloads).
Defined.

Lemma splitting_terminates_witness :
  exists payloads,
    _generate_payloads 3 (envelope two_entry ctx0) = Return payloads /\
    Forall (fun p => Z.of_nat (List.length p) < MAX_PAYLOAD_SIZE) payloads /\
    carried_events payloads = Some [event_a; event_b].
Proof.
  apply (splitting_terminates (laws := RefCodecFacts.ref_codec_laws)
           (envelope two_entry ctx0) two_kvs [event_a; event_b] 3
           eq_refl two_parses eq_refl two_sub_fits).
  cbn [List.length]. lia.
Defined.

Lemma split_keeps_other_fields_witness :
  exists d1 d2 kvs1 kvs2,
    _split (envelope two_entry ctx0) = Return (d1, d2) /\
    context d1 = context (envelope two_entry ctx0) /\
    context d2 = context (envelope two_entry ctx0) /\
    json_loads (entry d1) = Some (PDict kvs1) /\
    json_loads (entry d2) = Some (PDict kvs2) /\
    dict_get kvs1 "logEvents" = Some (PList [event_a]) /\
    dict_get kvs2 "logEvents" = Some (PList [event_b]) /\
    map fst kvs1 = ["logGroup"; "logEvents"] /\
    map fst kvs2 = ["logGroup"; "logEvents"] /\
    (forall k, k <> "logEvents" ->
               dict_get kvs1 k = dict_get two_kvs k /\
               dict_get kvs2 k = dict_get two_kvs k).
Proof.
  exact (split_keeps_other_fields (laws := RefCodecFacts.ref_codec_laws)
           (envelope two_entry ctx0) two_kvs [event_a; event_b] two_parses eq_refl).
Defined.

Lemma text_parses : json_loads text_entry = Some (PDict text_kvs).
Proof. apply RefCodecFacts.ref_loads_dumps. reflexivity. Qed.

Lemma split_string_log_events_witness :
  let left := "a" ++ n_tilde ++ "b" in
  let right := euro_sign ++ "cd" in
  _split (envelope text_entry ctx0) =
  Return (mkData (context (envelope text_entry ctx0))
            (json_dumps (PDict [("logGroup", PStr "/aws/lambda/f");
                                ("logEvents", PStr left)])),
          mkData (context (envelope text_entry ctx0))
            (json_dumps (PDict [("logGroup", PStr "/aws/lambda/f");
                                ("logEvents", PStr right)])))
  /\ left ++ right = text_events
  /\ str_len left = 3%nat /\ str_len right = 3%nat.
Proof.
  exact (split_string_log_events (envelope text_entry ctx0) text_kvs text_events
           text_parses eq_refl).
Defined.

Lemma payloads_partition_events_witness :
  exists fuel payloads runs,
    _generate_payloads fuel (envelope two_entry ctx0) = Return payloads /\
    payloads
    = map (fun s => wire (sub_envelope (context (envelope two_entry ctx0)) two_kvs s))
          runs /\
    List.concat runs = [event_a; event_b] /\
    Forall (fun s => s <> []) runs /\
    (2 <= List.length payloads <= 2)%nat.
Proof.
  refine (proj1 (payloads_partition_events (laws := RefCodecFacts.ref_codec_laws)
                   (envelope two_entry ctx0) two_kvs [event_a; event_b]
                   two_parses eq_refl _ two_too_big) two_sub_fits).
  cbn [List.length]. lia.
Defined.

Lemma log_type_of_first_record_witness :
  _get_log_type (PDict s3_put_event) = Return "s3".
Proof.
  exact (proj2 (proj2 (log_type_of_first_record s3_put_event s3_put_record []
                         eq_refl eq_refl))
           _ "ObjectCreated:Put" eq_refl eq_refl).
Defined.

Lemma handler_ignores_unknown_events_witness :
  exists w',
    lambda_handler 0 (PDict []) ctx0 (world always_200 no_env) = (Return tt, w') /\
    sent w' = [] /\ slept w' = [] /\
    stdout w' = ["Not supported"; py_repr (PDict [])].
Proof.
  exact (handler_ignores_unknown_events 0 (PDict []) ctx0 (world always_200 no_env)
           eq_refl).
Defined.

Lemma handler_cloudwatch_entry_witness :
  lambda_handler 0 (PDict cw_event) ctx0 (world always_200 no_env) =
  _send_log_entry 0 small_entry ctx0 (world always_200 no_env).
Proof.
  apply (handler_cloudwatch_entry 0 cw_event (PDict [("data", PStr small_entry)])
           small_entry (list_byte_of_string small_entry)
           (list_byte_of_string small_entry) small_entry ctx0
           (world always_200 no_env)).
  - reflexivity.
  - reflexivity.
  - reflexivity.
  - reflexivity.
  - cbn [utf8_decode RefCodec.codec]. now rewrite string_of_list_byte_of_string.
Defined.

Lemma handler_cloudwatch_decoding_errors_witness :
  lambda_handler 0 (PDict cw_event_without_data) ctx0 (world always_200 no_env)
  = (Raise KeyError, world always_200 no_env).
Proof.
  exact (proj1 (handler_cloudwatch_decoding_errors 0 cw_event_without_data (PDict [])
                  ctx0 (world always_200 no_env) eq_refl)
           KeyError eq_refl).
Defined.

Example cloudwatch_event_run :
  let run := lambda_handler 0 (PDict cw_event) ctx0 (world always_200 no_env) in
  fst run = Return tt /\
  map req_url (sent (snd run)) = ["https://cloud-collector.newrelic.com/aws/v1"] /\
  stdout (snd run) = ["Log entry sent. Response code: 200"].
Proof. vm_compute. repeat split. Qed.

(** With NR_REGION set to a name that is neither US nor EU the name
    is taken as the host itself; the URL then has no scheme,
    [request.Request] does not take it, and nothing is sent. *)
Example region_without_scheme_run :
  let w := world always_200
             (fun k => if String.eqb k "NR_REGION" then Some "eu" else None) in
  _get_ingest_service_url OTHER w = (Return "eu/aws/v1", w) /\
  _send_payload OTHER [] w = (Raise (OtherError "ValueError"), w).
Proof. split; reflexivity. Qed.

Example s3_gz_event_run :
  lambda_handler 0 (PDict s3_put_event) ctx0
    (mkWorld always_200 no_env has_scheme (fun _ _ => Return []) [] [] [] [])
  = (Raise TypeError,
     mkWorld always_200 no_env has_scheme (fun _ _ => Return []) [] [] [] []).
Proof. reflexivity. Qed.

Lemma log_type_cloudwatch_first_witness :
  _get_log_type (PDict [("awslogs", PDict []); ("Records", PList [])])
  = Return "cw_logs".
Proof.
  exact (proj1 (log_type_cloudwatch_first
                  [("awslogs", PDict []); ("Records", PList [])])
           (PDict []) eq_refl).
Defined.

Lemma s3_data_by_key_witness :
  let w := mkWorld always_200 no_env has_scheme (fun _ _ => Return []) [] [] [] [] in
  _get_s3_data (PStr "logs") (PStr "2026/app.log.gz") w = (Raise TypeError, w).
Proof.
  intros w.
  refine (proj1 (s3_data_by_key "logs" "2026/app.log.gz" w) [] eq_refl _).
  right. exists "2026/app.log". reflexivity.
Defined.
End MoreRuns.
